(** * EOF v1 container validation (packages/evm/src/eof.ts)

    A shallow embedding of [isEOFCode], [getEOFVersion], [validateCode] and
    [checkOpcodes], with the properties of the validator stated over it.

    Conventions of the embedding:
    - a [Buffer] is a list of bytes; positions and lengths are JS numbers
      that hold integers here, so they are [Z];
    - [code[i]] is [byteAt code i : option Z], [None] standing for
      [undefined] (JS indexing never throws);
    - [code.readUint8], [code.readUint16BE] and [code.readInt16BE] throw a
      [RangeError] when the addressed bytes are not all inside the buffer;
    - the two [Set]s of [checkOpcodes] are [gset Z];
    - [handlers.keys()], imported from ./opcodes, is a parameter of the
      development: the set of opcode bytes that have a handler. *)

From Stdlib Require Import ZArith Lia.
From Stdlib Require Import Strings.Byte.
From stdpp Require Import base decidable option list list_numbers gmap sets.

#[local] Open Scope Z_scope.
#[local] Set Warnings "-clear-no-such-hyp".

(** ** Buffers *)

Abbreviation Buffer := (list byte).

#[global] Instance byte_eq_dec : EqDecision byte := Byte.byte_eq_dec.

Definition byteZ (b : byte) : Z := Z.of_N (Byte.to_N b).

(** [code.length] *)
Definition len (code : Buffer) : Z := Z.of_nat (length code).

(** [code[i]]: [undefined] outside the buffer. *)
Definition byteAt (code : Buffer) (i : Z) : option Z :=
  if i <? 0 then None else byteZ <$> code !! Z.to_nat i.

(** ** Completions of a JS function body

    A call either returns a boolean or throws.  [OutOfFuel] is the third
    outcome of the model only: the [while] loop of [checkOpcodes] is run on
    fuel (see [scanLoop], [scanAll_fuel] and [validateCode_outcome]). *)

Inductive exn : Set := RangeError.

Inductive completion : Set :=
| Returns (b : bool)
| Throws (e : exn)
| OutOfFuel.

(** A statement sequence in progress: it goes on with a value, or the
    function has completed. *)
Inductive ctl (A : Type) : Type :=
| Next (a : A)
| Halt (c : completion).
Arguments Next {A} a.
Arguments Halt {A} c.

#[global] Instance ctl_ret : MRet ctl := fun _ a => Next a.
#[global] Instance ctl_bind : MBind ctl := fun _ _ f m =>
  match m with
  | Next a => f a
  | Halt c => Halt c
  end.

(** [if (c) { return b }] *)
Definition returnIf (c : bool) (b : bool) : ctl unit :=
  if c then Halt (Returns b) else Next tt.

(** The completion of a body whose last statement is [return b]. *)
Definition run (m : ctl bool) : completion :=
  match m with
  | Next b => Returns b
  | Halt c => c
  end.

(** A call of a function from within another body. *)
Definition call (c : completion) : ctl bool :=
  match c with
  | Returns b => Next b
  | c => Halt c
  end.

(** ** Buffer readers (Node's Buffer API) *)

Definition readUint8 (code : Buffer) (offset : Z) : ctl Z :=
  match byteAt code offset with
  | Some v => Next v
  | None => Halt (Throws RangeError)
  end.

Definition readUint16BE (code : Buffer) (offset : Z) : ctl Z :=
  match byteAt code offset, byteAt code (offset + 1) with
  | Some first, Some last => Next (first * 2 ^ 8 + last)
  | _, _ => Halt (Throws RangeError)
  end.

Definition readInt16BE (code : Buffer) (offset : Z) : ctl Z :=
  match byteAt code offset, byteAt code (offset + 1) with
  | Some first, Some last =>
      let val := first * 2 ^ 8 + last in
      Next (if 2 ^ 15 <=? val then val - 2 ^ 16 else val)
  | _, _ => Halt (Throws RangeError)
  end.

(** ** Constants *)

Definition MAGIC : Buffer := [xef; x00].

Definition KIND_TYPE : Z := 1.
Definition KIND_CODE : Z := 2.
Definition KIND_DATA : Z := 3.
Definition TERMINATOR : Z := 0.

(** ** isEOFCode, getEOFVersion *)

(** [code.slice(0, 2).equals(MAGIC)] *)
Definition isEOFCode (code : Buffer) : bool :=
  bool_decide (take 2 code = MAGIC).

Definition _getEOFVersion (code : Buffer) : option Z := byteAt code 2.

(** The result is a JS number or [undefined] ([None]). *)
Definition getEOFVersion (code : Buffer) : option Z :=
  if negb (isEOFCode code) then Some 0 else _getEOFVersion code.

(** [a !== b] on a value that may be [undefined] and a number. *)
Definition neqJS (a : option Z) (b : Z) : bool := negb (bool_decide (a = Some b)).

(** ** The header fields, as [validateCode] reads them *)

Definition typeSectionSizeOf (code : Buffer) : ctl Z := readUint16BE code 4.
Definition numCodeSectionsOf (code : Buffer) : ctl Z := readUint16BE code 7.
Definition dataSectionMarkerIndexOf (numCodeSections : Z) : Z := 9 + 2 * numCodeSections.
Definition bodyStartPosOf (numCodeSections : Z) : Z :=
  dataSectionMarkerIndexOf numCodeSections + 4.
Definition dataSectionSizeOf (code : Buffer) (numCodeSections : Z) : ctl Z :=
  readUint16BE code (dataSectionMarkerIndexOf numCodeSections + 1).

(** The loop over the type section: [n] iterations are left, and the
    result is [currentBodyPos] after the loop. *)
Fixpoint typeSections (code : Buffer) (n : nat) (currentBodyPos : Z) : ctl Z :=
  match n with
  | O => Next currentBodyPos
  | S n' =>
      inputs ← readUint8 code currentBodyPos;
      returnIf (0x7f <? inputs) false;;
      outputs ← readUint8 code (currentBodyPos + 1);
      returnIf (0x7f <? outputs) false;;
      maxStackHeight ← readUint16BE code (currentBodyPos + 2);
      returnIf (1023 <? maxStackHeight) false;;
      typeSections code n' (currentBodyPos + 4)
  end.

(** [for (let pos = 9; pos < 9 + 2 * numCodeSections; pos += 2)]: [n]
    iterations are left. *)
Fixpoint sumCodeSizes (code : Buffer) (n : nat) (pos : Z) (codeSize : Z) : ctl Z :=
  match n with
  | O => Next codeSize
  | S n' =>
      size ← readUint16BE code pos;
      sumCodeSizes code n' (pos + 2) (codeSize + size)
  end.

Definition codeSizeOf (code : Buffer) (numCodeSections : Z) : ctl Z :=
  sumCodeSizes code (Z.to_nat numCodeSections) 9 0.

(** ** checkOpcodes *)

Record scan : Type := Scan {
  pos : Z;
  rjumpdests : gset Z;
  immediates : gset Z
}.

(** How one iteration of the [while] loop ends. *)
Inductive flow : Type :=
| Continue (s : scan)
| Break (s : scan).

Definition terminatingOpcodes : gset Z := {[ 0x00; 0xf3; 0xfd; 0xfe; 0xff ]}.

Section Validator.

(** [handlers.keys()] *)
Variable handlers : gset Z.

Definition opcodes : gset Z :=
  (((handlers ∪ {[ 0xfe ]}) ∖ {[ 0x58 ]}) ∖ {[ 0xff ]}) ∖ {[ 0xf2 ]}.

Variable code : Buffer.

(** The loop over the jump table of RJUMPV,
    [for (jp = pos; jp < finalPos; jp += 2)]: [n] iterations are left. *)
Fixpoint jumptable (n : nat) (jumptablePosition finalPos : Z)
    (dests : gset Z) : ctl (gset Z) :=
  match n with
  | O => Next dests
  | S n' =>
      offset ← readInt16BE code jumptablePosition;
      let target := offset + finalPos in
      let dests := dests ∪ {[ target ]} in
      returnIf ((len code - 1 <? target) || (target <? 0)) false;;
      jumptable n' (jumptablePosition + 2) finalPos dests
  end.

(** The body of [while (pos < code.length)]. *)
Definition scanBody (s : scan) : ctl flow :=
  let opcode := byteAt code (pos s) in
  let pos := pos s + 1 in
  match opcode with
  | None => Halt (Returns false)  (* opcodes.has(undefined) *)
  | Some opcode =>
      returnIf (negb (bool_decide (opcode ∈ opcodes))) false;;
      '(pos, imms) ←
        (if (0x60 <=? opcode) && (opcode <=? 0x7f) then
           let finalPos := pos + opcode - 0x5f in
           let imms := immediates s ∪ list_to_set (seqZ pos (finalPos - pos)) in
           returnIf (len code - 1 <? finalPos) false;;
           mret (finalPos, imms)
         else mret (pos, immediates s));
      if (opcode =? 0x5c) || (opcode =? 0x5d) then
        let imms := imms ∪ {[ pos ]} ∪ {[ pos + 1 ]} in
        returnIf (len code - 1 <? pos + 2) false;;
        offset ← readInt16BE code pos;
        let target := offset + pos + 2 in
        let dests := rjumpdests s ∪ {[ target ]} in
        returnIf ((len code - 1 <? target) || (target <? 0)) false;;
        mret (Continue (Scan (pos + 2) dests imms))
      else if opcode =? 0x5e then
        match byteAt code pos with
        | None =>
            (* tableSize is undefined: jumptableSize and finalPos are NaN,
               every comparison with them is false, no set changes, and
               pos = NaN ends the while loop. *)
            mret (Break (Scan (pos + 1) (rjumpdests s) imms))
        | Some tableSize =>
            returnIf (tableSize =? 0) false;;
            let jumptableSize := tableSize * 2 in
            returnIf (len code - 1 <? pos + jumptableSize + 1) false;;
            let finalPos := pos + 1 + jumptableSize in
            let imms := imms ∪ list_to_set (seqZ pos (finalPos - pos)) in
            let pos := pos + 1 in
            dests ← jumptable (Z.to_nat tableSize) pos finalPos (rjumpdests s);
            mret (Continue (Scan finalPos dests imms))
        end
      else mret (Continue (Scan pos (rjumpdests s) imms))
  end.

(** [while (pos < code.length) { ... }] on fuel. *)
Fixpoint scanLoop (fuel : nat) (s : scan) : ctl scan :=
  if pos s <? len code then
    match fuel with
    | O => Halt OutOfFuel
    | S fuel' =>
        f ← scanBody s;
        match f with
        | Continue s' => scanLoop fuel' s'
        | Break s' => Next s'
        end
    end
  else Next s.

Definition scanStart : scan := Scan 0 ∅ ∅.

(** Every iteration moves [pos] forward, so [code.length] iterations are
    enough ([scanLoop_fuel]). *)
Definition scanAll : ctl scan := scanLoop (length code) scanStart.

Definition isTerminating (b : option Z) : bool :=
  match b with
  | Some b => bool_decide (b ∈ terminatingOpcodes)
  | None => false
  end.

(** [for (const rjumpdest of rjumpdests) if (immediates.has(rjumpdest)) return false] *)
Definition noJumpIntoImmediate (s : scan) : bool :=
  forallb (fun rjumpdest => negb (bool_decide (rjumpdest ∈ immediates s)))
          (elements (rjumpdests s)).

Definition checkOpcodes : completion :=
  run (
    s ← scanAll;
    returnIf (negb (isTerminating (byteAt code (len code - 1)))) false;;
    returnIf (negb (noJumpIntoImmediate s)) false;;
    mret true).

(** ** validateCode *)

Definition validateCode : completion :=
  run (
    returnIf (negb (isEOFCode code)) true;;
    returnIf (len code <=? 2) false;;
    let version := _getEOFVersion code in
    returnIf (neqJS version 0) false;;
    returnIf (len code <? 15) false;;
    returnIf (neqJS (byteAt code 3) KIND_TYPE) false;;
    typeSectionSize ← typeSectionSizeOf code;
    returnIf (negb (typeSectionSize mod 4 =? 0)) false;;
    returnIf (typeSectionSize <? 4) false;;
    returnIf (neqJS (byteAt code 6) KIND_CODE) false;;
    numCodeSections ← numCodeSectionsOf code;
    returnIf ((1024 <? numCodeSections) || (numCodeSections =? 0)) false;;
    (* typeSectionSize is a multiple of 4 here, the division is exact *)
    returnIf (negb (typeSectionSize / 4 =? numCodeSections)) false;;
    let dataSectionMarkerIndex := dataSectionMarkerIndexOf numCodeSections in
    returnIf (len code <? dataSectionMarkerIndex) false;;
    returnIf (neqJS (byteAt code dataSectionMarkerIndex) KIND_DATA) false;;
    let bodyStartPos := bodyStartPosOf numCodeSections in
    returnIf (len code <? bodyStartPos) false;;
    returnIf (neqJS (byteAt code (dataSectionMarkerIndex + 3)) TERMINATOR) false;;
    let numTypeSections := typeSectionSize / 4 in
    currentBodyPos ← typeSections code (Z.to_nat numTypeSections) bodyStartPos;
    codeSize ← codeSizeOf code numCodeSections;
    dataSectionSize ← dataSectionSizeOf code numCodeSections;
    let currentBodyPos := currentBodyPos + (codeSize + dataSectionSize) in
    returnIf (negb (currentBodyPos =? len code - 1)) false;;
    ok ← call checkOpcodes;
    returnIf (negb ok) false;;
    mret true).

End Validator.

(** ** The positions the opcode pass reads as opcodes

    The states in which the [while] condition of [checkOpcodes] is
    evaluated: the start, and every state a completed iteration leads to. *)

Inductive reachable (handlers : gset Z) (code : Buffer) : scan -> Prop :=
| reachable_start : reachable handlers code scanStart
| reachable_step s s' :
    reachable handlers code s ->
    pos s < len code ->
    scanBody handlers code s = Next (Continue s') ->
    reachable handlers code s'.

(** [p] is a position whose byte the pass reads as an opcode. *)
Definition scanned (handlers : gset Z) (code : Buffer) (p : Z) : Prop :=
  exists s, reachable handlers code s /\ pos s = p /\ p < len code.

(** The states of the first [fuel] loop tests, in order. *)
Fixpoint scanTrace (handlers : gset Z) (code : Buffer) (fuel : nat) (s : scan) : list scan :=
  s :: match fuel with
       | O => []
       | S fuel' =>
           if pos s <? len code then
             match scanBody handlers code s with
             | Next (Continue s') => scanTrace handlers code fuel' s'
             | _ => []
             end
           else []
       end.

(** The state of the [k]-th loop test after [s], when the pass gets
    there. *)
Fixpoint steps (handlers : gset Z) (code : Buffer) (k : nat) (s : scan) : option scan :=
  match k with
  | O => Some s
  | S k' =>
      if pos s <? len code then
        match scanBody handlers code s with
        | Next (Continue s') => steps handlers code k' s'
        | _ => None
        end
      else None
  end.

(** ** Operands and jump targets of an instruction

    [p] is the position of an opcode byte. *)

(** [i] is the position of an operand byte of the instruction at [p]: of a
    PUSH operand, of the offset of RJUMP or RJUMPI, or of the table size or
    the table of RJUMPV. *)
Inductive operand (code : Buffer) (p i : Z) : Prop :=
| operand_push op :
    byteAt code p = Some op -> 0x60 <= op <= 0x7f ->
    p < i <= p + (op - 0x5f) -> operand code p i
| operand_rjump op :
    byteAt code p = Some op -> op = 0x5c \/ op = 0x5d ->
    p < i <= p + 2 -> operand code p i
| operand_rjumpv tableSize :
    byteAt code p = Some 0x5e -> byteAt code (p + 1) = Some tableSize ->
    p < i <= p + 1 + 2 * tableSize -> operand code p i.

(** [t] is a target of the relative jump at [p]: the signed offset plus the
    position after the offset (RJUMP, RJUMPI), or an entry of the table plus
    the position after the table (RJUMPV). *)
Inductive jumpTarget (code : Buffer) (p t : Z) : Prop :=
| target_rjump op offset :
    byteAt code p = Some op -> op = 0x5c \/ op = 0x5d ->
    readInt16BE code (p + 1) = Next offset ->
    t = offset + (p + 3) -> jumpTarget code p t
| target_rjumpv tableSize k offset :
    byteAt code p = Some 0x5e -> byteAt code (p + 1) = Some tableSize ->
    0 <= k < tableSize ->
    readInt16BE code (p + 2 + 2 * k) = Next offset ->
    t = offset + (p + 2 + 2 * tableSize) -> jumpTarget code p t.

(** The operand bytes of the instructions the pass reads. *)
Definition immediateSet (handlers : gset Z) (code : Buffer) (i : Z) : Prop :=
  exists q, scanned handlers code q /\ operand code q i.

(** The operand of the instruction at [p] ends in the last byte of the
    container. *)
Inductive endsAtLastByte (code : Buffer) (p : Z) : Prop :=
| ends_push op :
    byteAt code p = Some op -> 0x60 <= op <= 0x7f ->
    p + (op - 0x5f) = len code - 1 -> endsAtLastByte code p
| ends_rjump op :
    byteAt code p = Some op -> op = 0x5c \/ op = 0x5d ->
    p + 2 = len code - 1 -> endsAtLastByte code p
| ends_rjumpv tableSize :
    byteAt code p = Some 0x5e -> byteAt code (p + 1) = Some tableSize ->
    p + 1 + 2 * tableSize = len code - 1 -> endsAtLastByte code p.

(** The instruction at [p] passes the tests of the loop body: its opcode
    is allowed, its operand ends before the last byte, a jump table is not
    empty, and its jump targets are inside the container. *)
Definition wellFormed (handlers : gset Z) (code : Buffer) (p : Z) : Prop :=
  (exists op, byteAt code p = Some op /\ op ∈ opcodes handlers) /\
  (forall i, operand code p i -> i <= len code - 2) /\
  ~ (byteAt code p = Some 0x5e /\ byteAt code (p + 1) = Some 0) /\
  (forall t, jumpTarget code p t -> 0 <= t <= len code - 1).

(** The type entry at [offset] is within its bounds. *)
Definition typeEntryOK (code : Buffer) (offset : Z) : Prop :=
  exists inputs outputs maxStackHeight,
    byteAt code offset = Some inputs /\ inputs <= 0x7f /\
    byteAt code (offset + 1) = Some outputs /\ outputs <= 0x7f /\
    readUint16BE code (offset + 2) = Next maxStackHeight /\
    maxStackHeight <= 1023.

(** ** Sample inputs *)

(** An opcode table that defines every byte. *)
Definition allDefined : gset Z := list_to_set (seqZ 0 256).

(** The minimum EOF1 container of the specification (20 bytes). *)
Definition minimalEOF1 : Buffer :=
  [xef; x00; x01; x01; x00; x04; x02; x00; x01; x00; x01; x03; x00; x00; x00;
   x00; x00; x00; x00;
   x00].

(** Version byte 0, one type entry, one declared code byte, and one byte
    more than the header declares (21 bytes). *)
Definition version0Container : Buffer :=
  [xef; x00; x00; x01; x00; x04; x02; x00; x01; x00; x01; x03; x00; x00; x00;
   x00; x00; x00; x00;
   x00; x00].

(** A header only, version byte 0: the type section is missing (15 bytes). *)
Definition headerOnly : Buffer :=
  [xef; x00; x00; x01; x00; x04; x02; x00; x01; x00; x01; x03; x00; x00; x00].

(** As [version0Container], with RJUMP +0 and STOP as the code (24 bytes):
    the jump at 19 has its offset in 20 and 21, and its target is 22. *)
Definition jumpContainer : Buffer :=
  [xef; x00; x00; x01; x00; x04; x02; x00; x01; x00; x04; x03; x00; x00; x00;
   x00; x00; x00; x00;
   x5c; x00; x00; x00; x00].

(** As [version0Container], with PUSH1 as the declared code byte: its
    operand is the last byte of the container (21 bytes). *)
Definition pushAtEnd : Buffer :=
  [xef; x00; x00; x01; x00; x04; x02; x00; x01; x00; x01; x03; x00; x00; x00;
   x00; x00; x00; x00;
   x60; x00].

(** An opcode table that defines every byte but 0xEF. *)
Definition noMagicOpcode : gset Z := allDefined ∖ {[ 0xef ]}.

(** Legacy bytecode: PUSH1 0, PUSH1 0, RETURN. *)
Definition legacyCode : Buffer := [x60; x00; x60; x00; xf3].

(** Legacy bytecode whose third byte is 0: PUSH1 0, STOP. *)
Definition legacyZero : Buffer := [x60; x00; x00].

(** Fixture 3 of the specification: no code section (13 bytes). *)
Definition zeroCodeSections : Buffer :=
  [xef; x00; x01; x01; x00; x00; x02; x00; x00; x03; x00; x00; x00].

(** As [version0Container], with RJUMPV and a table size 0 as the code
    (23 bytes). *)
Definition emptyTable : Buffer :=
  [xef; x00; x00; x01; x00; x04; x02; x00; x01; x00; x03; x03; x00; x00; x00;
   x00; x00; x00; x00;
   x5e; x00; x00; x00].

(** The bytes of [version0Container], as an opcode table. *)
Definition fewOpcodes : gset Z := {[ 0x00; 0x01; 0x02; 0x03; 0x04; 0xef ]}.

(** ** Elementary facts on buffers and completions *)

Lemma byteZ_range b : 0 <= byteZ b <= 255.
Proof.
  unfold byteZ. pose proof (Byte.to_N_bounded b). lia.
Qed.

Lemma byteAt_Some code i v :
  byteAt code i = Some v -> 0 <= i < len code /\ 0 <= v <= 255.
Proof.
  unfold byteAt, len. destruct (Z.ltb_spec i 0) as [|Hi]; [discriminate|].
  destruct (code !! Z.to_nat i) as [b|] eqn:Hb; [|discriminate].
  intros [= <-]. apply lookup_lt_Some in Hb.
  split; [lia | apply byteZ_range].
Qed.

Lemma byteAt_inside code i :
  0 <= i < len code -> exists v, byteAt code i = Some v.
Proof.
  unfold byteAt, len. intros Hi.
  destruct (Z.ltb_spec i 0); [lia|].
  destruct (lookup_lt_is_Some_2 code (Z.to_nat i)) as [b Hb]; [lia|].
  rewrite Hb. eauto.
Qed.

Lemma byteAt_outside code i :
  len code <= i -> byteAt code i = None.
Proof.
  unfold byteAt, len. intros Hi.
  destruct (Z.ltb_spec i 0); [reflexivity|].
  assert (code !! Z.to_nat i = None) as -> by (apply lookup_ge_None_2; lia).
  reflexivity.
Qed.

Lemma neqJS_true a b : a <> Some b -> neqJS a b = true.
Proof.
  intros H. unfold neqJS. destruct (bool_decide_reflect (a = Some b)); [contradiction|].
  reflexivity.
Qed.

Lemma neqJS_eq a b : neqJS a b = false -> a = Some b.
Proof.
  unfold neqJS. destruct (bool_decide_reflect (a = Some b)); [auto | discriminate].
Qed.

Lemma bind_Next {A B} (m : ctl A) (f : A -> ctl B) b :
  m ≫= f = Next b -> exists a, m = Next a /\ f a = Next b.
Proof. destruct m; simpl; [eauto | discriminate]. Qed.

Lemma bind_Halt {A B} (m : ctl A) (f : A -> ctl B) c :
  m ≫= f = Halt c -> m = Halt c \/ exists a, m = Next a /\ f a = Halt c.
Proof. destruct m; simpl; [eauto | intros [= ->]; auto]. Qed.

Lemma returnIf_Next c b u : returnIf c b = Next u -> c = false.
Proof. destruct c; [discriminate | reflexivity]. Qed.

Lemma returnIf_Halt c b r : returnIf c b = Halt r -> c = true /\ r = Returns b.
Proof. destruct c; [intros [= <-]; auto | discriminate]. Qed.

Lemma readUint8_Halt code i c :
  readUint8 code i = Halt c -> c = Throws RangeError /\ byteAt code i = None.
Proof. unfold readUint8. destruct (byteAt code i); [discriminate | intros [= <-]; auto]. Qed.

Lemma readUint16BE_Next code i v :
  readUint16BE code i = Next v ->
  exists first last, byteAt code i = Some first /\ byteAt code (i + 1) = Some last /\
                     v = first * 2 ^ 8 + last.
Proof.
  unfold readUint16BE.
  destruct (byteAt code i) as [a|], (byteAt code (i + 1)) as [b|]; try discriminate.
  intros [= <-]. eauto.
Qed.

Lemma readUint16BE_Halt code i c :
  readUint16BE code i = Halt c -> c = Throws RangeError.
Proof.
  unfold readUint16BE.
  destruct (byteAt code i), (byteAt code (i + 1)); try discriminate; congruence.
Qed.

Lemma readUint16BE_inside code i :
  0 <= i -> i + 2 <= len code -> exists v, readUint16BE code i = Next v /\ 0 <= v < 2 ^ 16.
Proof.
  intros H0 H2. unfold readUint16BE.
  destruct (byteAt_inside code i) as [a Ha]; [lia|].
  destruct (byteAt_inside code (i + 1)) as [b Hb]; [lia|].
  rewrite Ha, Hb. apply byteAt_Some in Ha, Hb. eexists; split; [reflexivity | lia].
Qed.

Lemma readInt16BE_inside code i :
  0 <= i -> i + 2 <= len code -> exists v, readInt16BE code i = Next v.
Proof.
  intros H0 H2. unfold readInt16BE.
  destruct (byteAt_inside code i) as [a Ha]; [lia|].
  destruct (byteAt_inside code (i + 1)) as [b Hb]; [lia|].
  rewrite Ha, Hb. eauto.
Qed.

Lemma isEOFCode_bytes code :
  isEOFCode code = true -> byteAt code 0 = Some 0xef /\ byteAt code 1 = Some 0 /\ 2 <= len code.
Proof.
  unfold isEOFCode, MAGIC, byteAt, len. intros H. apply bool_decide_eq_true in H.
  destruct code as [|a [|b code]]; try discriminate.
  cbn in H. injection H as -> ->. cbn [length].
  split_and!; [reflexivity | reflexivity | lia].
Qed.

Lemma isEOFCode_spec code :
  isEOFCode code = true <-> byteAt code 0 = Some 0xef /\ byteAt code 1 = Some 0.
Proof.
  split.
  - intros H. apply isEOFCode_bytes in H as (? & ? & _). auto.
  - unfold isEOFCode, MAGIC, byteAt. cbn.
    destruct code as [|a [|b code]]; cbn; try (intros [? ?]; discriminate).
    intros [Ha Hb]. apply bool_decide_eq_true. cbn.
    destruct a; try discriminate Ha. destruct b; try discriminate Hb.
    reflexivity.
Qed.

(** ** The opcode pass *)

Ltac bind_next H :=
  let a := fresh "a" in
  let Ha := fresh "Ha" in
  apply bind_Next in H as (a & Ha & H); cbv beta in H.

Ltac guard_next H :=
  let a := fresh "u" in
  let Ha := fresh "Hg" in
  apply bind_Next in H as (a & Ha & H); cbv beta in H;
  apply returnIf_Next in Ha.

Section OpcodePass.

Variable handlers : gset Z.
Variable code : Buffer.

Lemma readInt16BE_Halt i c :
  0 <= i -> i + 2 <= len code -> readInt16BE code i = Halt c -> False.
Proof.
  intros H0 H2 H. destruct (readInt16BE_inside code i) as [v Hv]; congruence.
Qed.

Lemma jumptable_Next n : forall jp fp d d',
  jumptable code n jp fp d = Next d' ->
  d ⊆ d' /\ forall t, t ∈ d' -> t ∈ d \/ 0 <= t <= len code - 1.
Proof.
  induction n as [|n IH]; intros jp fp d d' H; cbn [jumptable] in H.
  - injection H as <-. split; [set_solver | auto].
  - bind_next H. guard_next H.
    apply orb_false_iff in Hg as [Hhi Hlo].
    apply Z.ltb_ge in Hhi, Hlo.
    destruct (IH _ _ _ _ H) as [Hsub Hnew]. split; [set_solver|].
    intros t Ht. destruct (Hnew t Ht) as [Hin|]; [|auto].
    apply elem_of_union in Hin as [|Hin]; [auto|].
    apply elem_of_singleton in Hin. subst t. right. lia.
Qed.

Lemma jumptable_Halt n : forall jp fp d c,
  0 <= jp -> jp + 2 * Z.of_nat n <= len code ->
  jumptable code n jp fp d = Halt c -> c = Returns false.
Proof.
  induction n as [|n IH]; intros jp fp d c H0 Hn H; cbn [jumptable] in H.
  - discriminate.
  - apply bind_Halt in H as [H | (off & Hoff & H)].
    { exfalso. eapply (readInt16BE_Halt jp); [lia | lia | exact H]. }
    cbv beta in H.
    apply bind_Halt in H as [H | (u & Hu & H)].
    { apply returnIf_Halt in H as [_ ->]. reflexivity. }
    eapply IH; [| | exact H]; lia.
Qed.

(** What a completed iteration has done. *)
Lemma scanBody_Continue s s' :
  scanBody handlers code s = Next (Continue s') ->
  (exists op, byteAt code (pos s) = Some op /\ op ∈ opcodes handlers) /\
  pos s < pos s' <= len code /\
  (pos s' = len code -> pos s = len code - 1) /\
  rjumpdests s ⊆ rjumpdests s' /\
  immediates s ⊆ immediates s' /\
  (forall t, t ∈ rjumpdests s' -> t ∈ rjumpdests s \/ 0 <= t <= len code - 1).
Proof.
  unfold scanBody. intros H.
  destruct (byteAt code (pos s)) as [op|] eqn:Hop; [|discriminate].
  pose proof (byteAt_Some _ _ _ Hop) as [Hpos Hbyte].
  guard_next H. apply negb_false_iff, bool_decide_eq_true in Hg.
  split; [eauto|].
  bind_next H. destruct a as [p imms].
  assert (pos s < p <= len code /\ (p = len code -> pos s = len code - 1) /\
          immediates s ⊆ imms /\
          ((op =? 0x5c) || (op =? 0x5d) = true \/ (op =? 0x5e) = true ->
           p = pos s + 1)) as (Hp & Hlast & Himm & Hjmp).
  { destruct ((0x60 <=? op) && (op <=? 0x7f)) eqn:Hpush.
    - guard_next Ha. injection Ha as <- <-.
      apply andb_true_iff in Hpush as [Hlo Hhi].
      apply Z.leb_le in Hlo, Hhi. apply Z.ltb_ge in Hg0.
      split_and!; [lia | lia | lia | set_solver |].
      intros [Hj|Hj]; [apply orb_true_iff in Hj as [Hj|Hj]|];
        apply Z.eqb_eq in Hj; lia.
    - injection Ha as <- <-. split_and!; try lia; set_solver. }
  destruct ((op =? 0x5c) || (op =? 0x5d)) eqn:Hrjump.
  - guard_next H. bind_next H. guard_next H. injection H as <-. cbn.
    apply Z.ltb_ge in Hg0. apply orb_false_iff in Hg1 as [Hhi Hlo].
    apply Z.ltb_ge in Hhi, Hlo.
    split_and!; [lia | lia | lia | set_solver | set_solver |].
    intros t Ht. apply elem_of_union in Ht as [|Ht]; [auto|].
    apply elem_of_singleton in Ht. subst t. right. lia.
  - destruct (op =? 0x5e) eqn:Hrjumpv.
    + destruct (byteAt code p) as [tableSize|] eqn:Htab; [|discriminate].
      pose proof (byteAt_Some _ _ _ Htab) as [_ Htsz].
      guard_next H. guard_next H. bind_next H. injection H as <-. cbn.
      apply Z.eqb_neq in Hg0. apply Z.ltb_ge in Hg1.
      apply jumptable_Next in Ha0 as [Hsub Hnew].
      split_and!; [lia | lia | lia | set_solver | set_solver | exact Hnew].
    + injection H as <-. cbn.
      split_and!; [lia | lia | lia | set_solver | set_solver | auto].
Qed.

(** The loop is left from inside an iteration only by an RJUMPV opcode
    in the last byte, and the sets are then those before the iteration. *)
Lemma scanBody_Break s s' :
  scanBody handlers code s = Next (Break s') ->
  byteAt code (pos s) = Some 0x5e /\ pos s = len code - 1 /\
  rjumpdests s' = rjumpdests s /\ immediates s' = immediates s.
Proof.
  unfold scanBody. intros H.
  destruct (byteAt code (pos s)) as [op|] eqn:Hop; [|discriminate].
  pose proof (byteAt_Some _ _ _ Hop) as [Hpos Hbyte].
  guard_next H. bind_next H. destruct a as [p imms].
  destruct ((op =? 0x5c) || (op =? 0x5d)) eqn:Hrjump.
  { guard_next H. bind_next H. guard_next H. discriminate. }
  destruct (op =? 0x5e) eqn:Hrjumpv; [|discriminate].
  apply Z.eqb_eq in Hrjumpv. subst op.
  cbn in Ha. injection Ha as <- <-.
  destruct (byteAt code (pos s + 1)) as [tableSize|] eqn:Htab.
  { guard_next H. guard_next H. bind_next H. discriminate. }
  injection H as <-. cbn.
  destruct (Z.lt_ge_cases (pos s + 1) (len code)) as [Hlt|Hge].
  - destruct (byteAt_inside code (pos s + 1)) as [v Hv]; [lia | congruence].
  - repeat split; [lia].
Qed.

(** An iteration never throws: its reads are inside the buffer. *)
Lemma scanBody_Halt s c :
  0 <= pos s -> scanBody handlers code s = Halt c -> c = Returns false.
Proof.
  unfold scanBody. intros Hnn H.
  destruct (byteAt code (pos s)) as [op|] eqn:Hop; [|congruence].
  pose proof (byteAt_Some _ _ _ Hop) as [Hpos Hbyte].
  apply bind_Halt in H as [H | (u & _ & H)].
  { apply returnIf_Halt in H as [_ ->]. reflexivity. }
  apply bind_Halt in H as [H | ([p imms] & Ha & H)].
  { destruct ((0x60 <=? op) && (op <=? 0x7f)); [|discriminate].
    apply bind_Halt in H as [H | (u' & _ & H)]; [|discriminate].
    apply returnIf_Halt in H as [_ ->]. reflexivity. }
  assert (pos s < p) as Hp.
  { destruct ((0x60 <=? op) && (op <=? 0x7f)) eqn:Hpush.
    - guard_next Ha. injection Ha as <- <-.
      apply andb_true_iff in Hpush as [Hlo Hhi]. apply Z.leb_le in Hlo. lia.
    - injection Ha as <- <-. lia. }
  cbv beta iota in H.
  destruct ((op =? 0x5c) || (op =? 0x5d)) eqn:Hrjump.
  - apply bind_Halt in H as [H | (u' & Hg & H)].
    { apply returnIf_Halt in H as [_ ->]. reflexivity. }
    apply returnIf_Next, Z.ltb_ge in Hg.
    apply bind_Halt in H as [H | (off & _ & H)].
    { exfalso. eapply (readInt16BE_Halt p); [lia | lia | exact H]. }
    apply bind_Halt in H as [H | (u'' & _ & H)]; [|discriminate].
    apply returnIf_Halt in H as [_ ->]. reflexivity.
  - destruct (op =? 0x5e); [|discriminate].
    destruct (byteAt code p) as [tableSize|] eqn:Htab; [|discriminate].
    pose proof (byteAt_Some _ _ _ Htab) as [_ Htsz].
    apply bind_Halt in H as [H | (u' & _ & H)].
    { apply returnIf_Halt in H as [_ ->]. reflexivity. }
    apply bind_Halt in H as [H | (u'' & Hg & H)].
    { apply returnIf_Halt in H as [_ ->]. reflexivity. }
    apply returnIf_Next, Z.ltb_ge in Hg.
    apply bind_Halt in H as [H | (d & _ & H)]; [|discriminate].
    eapply jumptable_Halt; [| | exact H]; lia.
Qed.

Lemma jumptable_targets n : forall jp fp d d',
  jumptable code n jp fp d = Next d' ->
  forall k offset, 0 <= k < Z.of_nat n ->
    readInt16BE code (jp + 2 * k) = Next offset -> offset + fp ∈ d'.
Proof.
  induction n as [|n IH]; intros jp fp d d' H k offset Hk Hoff; [lia|].
  cbn [jumptable] in H. bind_next H. guard_next H.
  destruct (Z.eq_dec k 0) as [->|Hk0].
  - replace (jp + 2 * 0) with jp in Hoff by lia.
    rewrite Hoff in Ha. injection Ha as <-.
    apply jumptable_Next in H as [Hsub _]. set_solver.
  - eapply (IH _ _ _ _ H (k - 1)); [lia|].
    replace (jp + 2 + 2 * (k - 1)) with (jp + 2 * k) by lia. exact Hoff.
Qed.

(** The kind of an opcode byte, as the tests of the loop body see it. *)
Lemma push_tests op :
  0x60 <= op <= 0x7f ->
  (0x60 <=? op) && (op <=? 0x7f) = true /\
  (op =? 0x5c) || (op =? 0x5d) = false /\ (op =? 0x5e) = false.
Proof. intros. split_and!; lia. Qed.

Lemma rjump_tests op :
  op = 0x5c \/ op = 0x5d ->
  (0x60 <=? op) && (op <=? 0x7f) = false /\
  (op =? 0x5c) || (op =? 0x5d) = true.
Proof. intros [->| ->]; split; reflexivity. Qed.

(** A completed iteration has put the operand bytes of its instruction
    into [immediates]. *)
Lemma scanBody_operand s s' i :
  scanBody handlers code s = Next (Continue s') ->
  operand code (pos s) i -> i ∈ immediates s'.
Proof.
  unfold scanBody. intros H Hop.
  destruct Hop as [op Hbyte Hpush Hi | op Hbyte Hrjump Hi | n Hbyte Hn Hi];
    rewrite Hbyte in H; guard_next H.
  - destruct (push_tests op Hpush) as (Hp & Hr & Hv).
    rewrite Hp in H. bind_next H. guard_next Ha. injection Ha as <-.
    rewrite Hr, Hv in H. injection H as <-. cbn.
    apply elem_of_union_r, elem_of_list_to_set, elem_of_seqZ. lia.
  - destruct (rjump_tests op Hrjump) as (Hp & Hr).
    rewrite Hp in H. bind_next H. injection Ha as <-. rewrite Hr in H.
    guard_next H. bind_next H. guard_next H. injection H as <-. cbn.
    assert (i = pos s + 1 \/ i = pos s + 1 + 1) as [->| ->] by lia; set_solver.
  - cbn in H. rewrite Hn in H.
    guard_next H. guard_next H. bind_next H. injection H as <-. cbn.
    apply elem_of_union_r, elem_of_list_to_set, elem_of_seqZ. lia.
Qed.

(** A completed iteration has put the targets of its jump into
    [rjumpdests]. *)
Lemma scanBody_target s s' t :
  scanBody handlers code s = Next (Continue s') ->
  jumpTarget code (pos s) t -> t ∈ rjumpdests s'.
Proof.
  unfold scanBody. intros H Ht.
  destruct Ht as [op offset Hbyte Hrjump Hoff -> | n k offset Hbyte Hn Hk Hoff ->];
    rewrite Hbyte in H; guard_next H.
  - destruct (rjump_tests op Hrjump) as (Hp & Hr).
    rewrite Hp in H. bind_next H. injection Ha as <-. rewrite Hr in H.
    guard_next H. bind_next H. guard_next H. injection H as <-. cbn.
    rewrite Hoff in Ha. injection Ha as <-.
    replace (offset + (pos s + 3)) with (offset + (pos s + 1) + 2) by lia.
    set_solver.
  - cbn in H. rewrite Hn in H.
    guard_next H. guard_next H. bind_next H. injection H as <-. cbn.
    pose proof (byteAt_Some _ _ _ Hn) as [_ Hrange].
    replace (offset + (pos s + 2 + 2 * n)) with (offset + (pos s + 1 + 1 + n * 2)) by lia.
    eapply (jumptable_targets _ _ _ _ _ Ha k); [lia|].
    replace (pos s + 1 + 1 + 2 * k) with (pos s + 2 + 2 * k) by lia. exact Hoff.
Qed.

(** The instruction of an iteration that leaves the loop has no operand
    byte and no target: it is an RJUMPV in the last byte. *)
Lemma scanBody_Break_bare s s' :
  scanBody handlers code s = Next (Break s') ->
  (forall i, ~ operand code (pos s) i) /\ (forall t, ~ jumpTarget code (pos s) t).
Proof.
  intros H. apply scanBody_Break in H as (Hbyte & Hlast & _).
  assert (byteAt code (pos s + 1) = None) as Hnone by (apply byteAt_outside; lia).
  split.
  - intros i [op Hb Hpush _ | op Hb Hr _ | n _ Hn _]; try congruence.
    + rewrite Hbyte in Hb. injection Hb as <-. lia.
    + rewrite Hbyte in Hb. injection Hb as <-. lia.
  - intros t [op offset Hb Hr _ _ | n k offset _ Hn _ _ _]; try congruence.
    rewrite Hbyte in Hb. injection Hb as <-. lia.
Qed.

Lemma reachable_pos s :
  reachable handlers code s -> 0 <= pos s <= len code.
Proof.
  induction 1 as [|s s' _ IH Hlt Hbody].
  - cbn. unfold len. lia.
  - apply scanBody_Continue in Hbody as (_ & Hp & _). lia.
Qed.

(** The loop on fuel: the fuel is never what ends it. *)
Lemma scanLoop_fuel fuel : forall s,
  0 <= pos s -> len code - pos s <= Z.of_nat fuel ->
  scanLoop handlers code fuel s <> Halt OutOfFuel.
Proof.
  induction fuel as [|fuel IH]; intros s Hnn Hfuel; cbn [scanLoop].
  - destruct (Z.ltb_spec (pos s) (len code)); [lia | discriminate].
  - destruct (Z.ltb_spec (pos s) (len code)); [|discriminate].
    destruct (scanBody handlers code s) as [[s'|s']|c] eqn:Hbody; cbn.
    + apply scanBody_Continue in Hbody as (_ & Hp & _). apply IH; lia.
    + discriminate.
    + apply scanBody_Halt in Hbody; [subst c; discriminate | exact Hnn].
Qed.

Lemma scanLoop_Halt fuel : forall s c,
  0 <= pos s -> scanLoop handlers code fuel s = Halt c ->
  c = Returns false \/ c = OutOfFuel.
Proof.
  induction fuel as [|fuel IH]; intros s c Hnn; cbn [scanLoop].
  - destruct (pos s <? len code); [intros [= <-]; auto | discriminate].
  - destruct (pos s <? len code); [|discriminate].
    destruct (scanBody handlers code s) as [[s'|s']|c'] eqn:Hbody; cbn.
    + apply scanBody_Continue in Hbody as (_ & Hp & _). apply IH. lia.
    + discriminate.
    + intros [= <-]. left. eapply scanBody_Halt; eauto.
Qed.

(** The sets only grow, and every target that is added is inside the
    container. *)
Lemma scanLoop_Next fuel : forall s s',
  scanLoop handlers code fuel s = Next s' ->
  rjumpdests s ⊆ rjumpdests s' /\
  immediates s ⊆ immediates s' /\
  (forall t, t ∈ rjumpdests s' -> t ∈ rjumpdests s \/ 0 <= t <= len code - 1).
Proof.
  induction fuel as [|fuel IH]; intros s s'; cbn [scanLoop].
  - destruct (pos s <? len code); [discriminate|].
    intros [= <-]. split_and!; [set_solver | set_solver | auto].
  - destruct (pos s <? len code);
      [|intros [= <-]; split_and!; [set_solver | set_solver | auto]].
    destruct (scanBody handlers code s) as [[s1|s1]|c] eqn:Hbody; cbn;
      [| |discriminate].
    + intros H. destruct (IH _ _ H) as (Hd & Hi & Hnew).
      apply scanBody_Continue in Hbody as (_ & _ & _ & Hd1 & Hi1 & Hnew1).
      split_and!; [set_solver | set_solver |].
      intros t Ht. destruct (Hnew t Ht) as [Ht1|]; [|auto].
      apply Hnew1 in Ht1. exact Ht1.
    + intros [= <-].
      apply scanBody_Break in Hbody as (_ & _ & -> & ->).
      split_and!; [set_solver | set_solver | auto].
Qed.

Lemma scanAll_fuel : scanAll handlers code <> Halt OutOfFuel.
Proof.
  apply scanLoop_fuel; cbn; unfold len; lia.
Qed.

(** The pass ends by [return false] or at the end of the loop. *)
Lemma scanAll_cases :
  scanAll handlers code = Halt (Returns false) \/
  exists s, scanAll handlers code = Next s.
Proof.
  destruct (scanAll handlers code) as [s|c] eqn:H; [eauto|].
  left. pose proof scanAll_fuel as Hfuel. rewrite H in Hfuel.
  apply scanLoop_Halt in H as [->| ->]; [reflexivity | congruence | cbn; lia].
Qed.

(** From every reachable state the loop ends as it does from the start. *)
Lemma reachable_scanLoop s :
  reachable handlers code s ->
  exists fuel, scanLoop handlers code fuel s = scanAll handlers code.
Proof.
  induction 1 as [|s s' _ [fuel IH] Hlt Hbody].
  - exists (length code). reflexivity.
  - destruct fuel as [|fuel]; cbn [scanLoop] in IH;
      apply Z.ltb_lt in Hlt; rewrite Hlt in IH.
    + symmetry in IH. apply scanAll_fuel in IH. contradiction.
    + rewrite Hbody in IH. cbn in IH. eauto.
Qed.

(** An iteration that returns false ends the whole pass. *)
Lemma reachable_reject s c :
  reachable handlers code s -> pos s < len code ->
  scanBody handlers code s = Halt c ->
  scanAll handlers code = Halt (Returns false).
Proof.
  intros Hr Hlt Hbody.
  pose proof (reachable_pos _ Hr) as Hpos.
  destruct (reachable_scanLoop _ Hr) as [fuel Hloop].
  destruct fuel as [|fuel]; cbn [scanLoop] in Hloop;
    apply Z.ltb_lt in Hlt; rewrite Hlt in Hloop.
  - symmetry in Hloop. apply scanAll_fuel in Hloop. contradiction.
  - rewrite Hbody in Hloop. cbn in Hloop.
    apply scanBody_Halt in Hbody; [|lia]. congruence.
Qed.

Lemma scanTrace_reachable fuel : forall s s',
  reachable handlers code s ->
  s' ∈ scanTrace handlers code fuel s ->
  reachable handlers code s'.
Proof.
  induction fuel as [|fuel IH]; intros s s' Hr Hin; cbn [scanTrace] in Hin.
  - apply list_elem_of_singleton in Hin. congruence.
  - apply elem_of_cons in Hin as [->|Hin]; [exact Hr|].
    destruct (Z.ltb_spec (pos s) (len code)) as [Hlt|];
      [|apply elem_of_nil in Hin; contradiction].
    destruct (scanBody handlers code s) as [[s1|s1]|c] eqn:Hbody;
      try (apply elem_of_nil in Hin; contradiction).
    eapply IH; [|exact Hin]. eapply reachable_step; eauto.
Qed.

(** The [i]-th loop test of the pass is on a reachable state. *)
Lemma scanTrace_lookup i s :
  scanTrace handlers code (length code) scanStart !! i = Some s ->
  reachable handlers code s.
Proof.
  intros H. eapply scanTrace_reachable; [apply reachable_start|].
  eapply list_elem_of_lookup_2. exact H.
Qed.

(** In a pass that reaches the end of the loop, the final sets hold the
    operand bytes and the targets of every instruction read. *)
Lemma scanned_sets final p :
  scanAll handlers code = Next final -> scanned handlers code p ->
  (forall i, operand code p i -> i ∈ immediates final) /\
  (forall t, jumpTarget code p t -> t ∈ rjumpdests final).
Proof.
  intros Hfinal (s & Hr & <- & Hlt).
  destruct (reachable_scanLoop _ Hr) as [fuel Hloop]. rewrite Hfinal in Hloop.
  destruct fuel as [|fuel]; cbn [scanLoop] in Hloop;
    apply Z.ltb_lt in Hlt; rewrite Hlt in Hloop; [discriminate|].
  destruct (scanBody handlers code s) as [[s1|s1]|c] eqn:Hbody; cbn in Hloop;
    [| |discriminate].
  - apply scanLoop_Next in Hloop as (Hd & Hi & _). split.
    + intros i Hop. apply Hi. eapply scanBody_operand; eauto.
    + intros t Ht. apply Hd. eapply scanBody_target; eauto.
  - apply scanBody_Break_bare in Hbody as [Hno Hnt]. split.
    + intros i Hop. destruct (Hno i Hop).
    + intros t Ht. destruct (Hnt t Ht).
Qed.

(** A byte outside the allowed set, read as an opcode, ends the pass. *)
Lemma scanBody_undefined s op :
  byteAt code (pos s) = Some op -> op ∉ opcodes handlers ->
  scanBody handlers code s = Halt (Returns false).
Proof.
  intros Hbyte Hop. unfold scanBody. rewrite Hbyte.
  rewrite bool_decide_eq_false_2 by exact Hop. reflexivity.
Qed.

Lemma selfdestruct_not_allowed : 0xff ∉ opcodes handlers.
Proof. unfold opcodes. set_solver. Qed.

(** An instruction whose operand ends in the last byte ends the pass. *)
Lemma scanBody_endsAtLastByte s :
  endsAtLastByte code (pos s) -> scanBody handlers code s = Halt (Returns false).
Proof.
  intros Hend.
  assert (exists op, byteAt code (pos s) = Some op) as [op0 Hop0]
    by (destruct Hend; eauto).
  destruct (decide (op0 ∈ opcodes handlers)) as [Hin|Hout];
    [|eapply scanBody_undefined; eauto].
  unfold scanBody.
  destruct Hend as [op Hbyte Hpush Hi | op Hbyte Hrjump Hi | n Hbyte Hn Hi];
    rewrite Hbyte in *; injection Hop0 as <-;
    rewrite bool_decide_eq_true_2 by exact Hin; cbn [negb returnIf].
  - destruct (push_tests op Hpush) as (Hp & _). cbn. rewrite Hp.
    replace (len code - 1 <? pos s + 1 + op - 0x5f) with true by lia.
    reflexivity.
  - destruct (rjump_tests op Hrjump) as (Hp & Hr). cbn. rewrite Hp. cbn.
    rewrite Hr.
    replace (len code - 1 <? pos s + 1 + 2) with true by lia. reflexivity.
  - cbn. rewrite Hn. destruct (Z.eqb_spec n 0); [reflexivity|]. cbn.
    replace (len code - 1 <? pos s + 1 + n * 2 + 1) with true by lia.
    reflexivity.
Qed.

Lemma scanned_reject p :
  scanned handlers code p ->
  (forall s, pos s = p -> scanBody handlers code s = Halt (Returns false)) ->
  checkOpcodes handlers code = Returns false.
Proof.
  intros (s & Hr & Hp & Hlt) Hbody. subst p.
  unfold checkOpcodes.
  rewrite (reachable_reject _ _ Hr Hlt (Hbody s eq_refl)). reflexivity.
Qed.

(** [checkOpcodes] always returns a boolean. *)
Lemma checkOpcodes_returns : exists b, checkOpcodes handlers code = Returns b.
Proof.
  unfold checkOpcodes.
  destruct scanAll_cases as [-> | [s ->]]; cbn; [eauto|].
  destruct (isTerminating _); cbn; [|eauto].
  destruct (noJumpIntoImmediate s); cbn; eauto.
Qed.

Lemma checkOpcodes_true :
  checkOpcodes handlers code = Returns true ->
  exists final, scanAll handlers code = Next final /\
    isTerminating (byteAt code (len code - 1)) = true /\
    noJumpIntoImmediate final = true.
Proof.
  unfold checkOpcodes.
  destruct scanAll_cases as [-> | [s ->]]; cbn; [discriminate|].
  destruct (isTerminating _); cbn; [|discriminate].
  destruct (noJumpIntoImmediate s) eqn:Hjumps; cbn; [|discriminate].
  intros _. exists s. split_and!; [reflexivity | reflexivity | exact Hjumps].
Qed.

(** A pass that reaches the end of the loop has read the last byte as an
    opcode: no operand may end there ([scanBody_endsAtLastByte]). *)
Lemma scanLoop_last fuel : forall s final,
  reachable handlers code s -> pos s < len code ->
  scanLoop handlers code fuel s = Next final ->
  scanned handlers code (len code - 1).
Proof.
  induction fuel as [|fuel IH]; intros s final Hr Hlt Hloop;
    cbn [scanLoop] in Hloop;
    pose proof Hlt as Hltb; apply Z.ltb_lt in Hltb; rewrite Hltb in Hloop;
    [discriminate|].
  destruct (scanBody handlers code s) as [[s1|s1]|c] eqn:Hbody; cbn in Hloop;
    [| |discriminate].
  - pose proof (scanBody_Continue _ _ Hbody) as (_ & Hp & Hlast & _).
    destruct (Z.lt_ge_cases (pos s1) (len code)) as [Hlt1|Hge1].
    + eapply (IH s1); [eapply reachable_step; eauto | exact Hlt1 | exact Hloop].
    + exists s. split_and!; [exact Hr | lia | lia].
  - apply scanBody_Break in Hbody as (_ & Hlast & _).
    exists s. split_and!; [exact Hr | lia | lia].
Qed.

Lemma last_byte_scanned final :
  scanAll handlers code = Next final -> 0 < len code ->
  scanned handlers code (len code - 1).
Proof.
  intros Hfinal Hlen.
  eapply (scanLoop_last _ scanStart); [apply reachable_start | exact Hlen | exact Hfinal].
Qed.

End OpcodePass.

(** ** The header and the type section *)

Lemma run_bind {A} (m : ctl A) (f : A -> ctl bool) c :
  run (m ≫= f) = c -> m = Halt c \/ exists a, m = Next a /\ run (f a) = c.
Proof. destruct m; cbn; intros H; [right; eauto | left; congruence]. Qed.

Lemma run_bind_Next {A} (a : A) (f : A -> ctl bool) :
  run (Next a ≫= f) = run (f a).
Proof. reflexivity. Qed.

Lemma run_bind_Halt {A} c (f : A -> ctl bool) : run (Halt c ≫= f) = c.
Proof. reflexivity. Qed.

Lemma typeSections_Next code n : forall p p',
  typeSections code n p = Next p' -> p' = p + 4 * Z.of_nat n.
Proof.
  induction n as [|n IH]; intros p p' H; cbn [typeSections] in H.
  - injection H as <-. lia.
  - bind_next H. guard_next H. bind_next H. guard_next H.
    bind_next H. guard_next H. apply IH in H. lia.
Qed.

Lemma typeSections_Halt code n : forall p c,
  typeSections code n p = Halt c -> c = Returns false \/ c = Throws RangeError.
Proof.
  induction n as [|n IH]; intros p c H; cbn [typeSections] in H; [discriminate|].
  repeat match type of H with
  | _ ≫= _ = Halt _ => apply bind_Halt in H as [H | (? & _ & H)]; cbv beta in H
  end;
  try (apply returnIf_Halt in H as [_ ->]; auto);
  try (apply readUint8_Halt in H as [-> _]; auto);
  try (apply readUint16BE_Halt in H as ->; auto).
  eapply IH; eauto.
Qed.

(** With all of the type section inside the buffer, the loop over it
    does not throw. *)
Lemma typeSections_inside code n : forall p c,
  0 <= p -> p + 4 * Z.of_nat n <= len code ->
  typeSections code n p = Halt c -> c = Returns false.
Proof.
  induction n as [|n IH]; intros p c H0 Hn H; cbn [typeSections] in H; [discriminate|].
  destruct (byteAt_inside code p) as [a Ha]; [lia|].
  destruct (byteAt_inside code (p + 1)) as [b Hb]; [lia|].
  destruct (readUint16BE_inside code (p + 2)) as (m & Hm & _); [lia | lia |].
  unfold readUint8 in H. rewrite Ha, Hb, Hm in H. cbn in H.
  destruct (0x7f <? a); cbn in H; [congruence|].
  destruct (0x7f <? b); cbn in H; [congruence|].
  destruct (1023 <? m); cbn in H; [congruence|].
  eapply IH; [| |exact H]; lia.
Qed.

Lemma sumCodeSizes_Halt code n : forall p acc c,
  sumCodeSizes code n p acc = Halt c -> c = Throws RangeError.
Proof.
  induction n as [|n IH]; intros p acc c H; cbn [sumCodeSizes] in H; [discriminate|].
  apply bind_Halt in H as [H | (? & _ & H)]; cbv beta in H.
  - apply readUint16BE_Halt in H. exact H.
  - eapply IH; eauto.
Qed.

Lemma sumCodeSizes_inside code n : forall p acc,
  0 <= p -> p + 2 * Z.of_nat n <= len code ->
  exists v, sumCodeSizes code n p acc = Next v.
Proof.
  induction n as [|n IH]; intros p acc H0 Hn; cbn [sumCodeSizes]; [eauto|].
  destruct (readUint16BE_inside code p) as (v & Hv & _); [lia | lia |].
  rewrite Hv. cbn. apply IH; lia.
Qed.

Ltac run_guard H :=
  let u := fresh "u" in
  let Hg := fresh "Hg" in
  apply run_bind in H as [H | (u & Hg & H)];
  [apply returnIf_Halt in H as [_ H]; discriminate
  |apply returnIf_Next in Hg; cbv beta zeta in H].

Ltac run_read H v Hv :=
  apply run_bind in H as [H | (v & Hv & H)];
  [first [apply readUint16BE_Halt in H | apply sumCodeSizes_Halt in H]; discriminate
  |cbv beta zeta in H].

Section Header.

Variable handlers : gset Z.
Variable code : Buffer.

(** What an accepted container that begins with the magic has passed. *)
Lemma validateCode_accepted :
  validateCode handlers code = Returns true ->
  isEOFCode code = true ->
  exists typeSectionSize numCodeSections codeSize dataSectionSize,
    byteAt code 2 = Some 0 /\
    15 <= len code /\
    typeSectionSizeOf code = Next typeSectionSize /\
    numCodeSectionsOf code = Next numCodeSections /\
    1 <= numCodeSections <= 1024 /\
    typeSectionSize = 4 * numCodeSections /\
    codeSizeOf code numCodeSections = Next codeSize /\
    dataSectionSizeOf code numCodeSections = Next dataSectionSize /\
    bodyStartPosOf numCodeSections + typeSectionSize + codeSize + dataSectionSize
      = len code - 1 /\
    checkOpcodes handlers code = Returns true.
Proof.
  unfold validateCode. intros H HEOF. rewrite HEOF in H.
  apply run_bind in H as [H | (u & _ & H)]; [discriminate|].
  run_guard H. run_guard H. run_guard H. run_guard H.
  run_read H ts Hts. run_guard H. run_guard H. run_guard H.
  run_read H n Hn. run_guard H. run_guard H. run_guard H. run_guard H.
  run_guard H. run_guard H.
  apply run_bind in H as [H | (p & Hp & H)].
  { apply typeSections_Halt in H as [H|H]; discriminate. }
  run_read H cs Hcs. run_read H ds Hds. run_guard H.
  apply run_bind in H as [H | (ok & Hok & H)].
  { destruct (checkOpcodes_returns handlers code) as [b Hb].
    rewrite Hb in H. discriminate. }
  run_guard H.
  apply negb_false_iff in Hg13. subst ok.
  unfold call in Hok.
  destruct (checkOpcodes handlers code) as [b| |] eqn:Hcheck; try discriminate.
  injection Hok as ->.
  unfold neqJS in Hg0. apply negb_false_iff, bool_decide_eq_true in Hg0.
  apply Z.ltb_ge in Hg1.
  apply negb_false_iff, Z.eqb_eq in Hg3. apply Z.ltb_ge in Hg4.
  apply orb_false_iff in Hg6 as [Hmax Hzero].
  apply Z.ltb_ge in Hmax. apply Z.eqb_neq in Hzero.
  apply negb_false_iff, Z.eqb_eq in Hg7.
  apply negb_false_iff, Z.eqb_eq in Hg12.
  apply typeSections_Next in Hp.
  destruct (readUint16BE_Next _ _ _ Hn) as (a & b & Ha & Hb & ->).
  apply byteAt_Some in Ha as [_ Ha], Hb as [_ Hb].
  assert (ts = 4 * (a * 2 ^ 8 + b)) as Hts4.
  { rewrite <- Hg7. pose proof (Z.div_mod ts 4). lia. }
  exists ts, (a * 2 ^ 8 + b), cs, ds.
  split_and!; first [assumption | reflexivity | lia].
Qed.

(** [validateCode] returns a boolean or throws; the fuel of the model
    never runs out. *)
Lemma validateCode_outcome :
  (exists b, validateCode handlers code = Returns b) \/
  validateCode handlers code = Throws RangeError.
Proof.
  destruct (validateCode handlers code) as [b|[]|] eqn:H; [eauto | auto |].
  exfalso. unfold validateCode in H.
  run_guard H. run_guard H. run_guard H. run_guard H. run_guard H.
  run_read H ts Hts. run_guard H. run_guard H. run_guard H.
  run_read H n Hn. run_guard H. run_guard H. run_guard H. run_guard H.
  run_guard H. run_guard H.
  apply run_bind in H as [H | (p & Hp & H)].
  { apply typeSections_Halt in H as [H|H]; discriminate. }
  run_read H cs Hcs. run_read H ds Hds. run_guard H.
  apply run_bind in H as [H | (ok & Hok & H)].
  { destruct (checkOpcodes_returns handlers code) as [b Hb].
    rewrite Hb in H. discriminate. }
  run_guard H. discriminate.
Qed.

(** When the opcode pass fails, a container with the magic is not
    accepted. *)
Lemma validateCode_pass_failed :
  isEOFCode code = true ->
  checkOpcodes handlers code = Returns false ->
  validateCode handlers code = Returns false \/
  validateCode handlers code = Throws RangeError.
Proof.
  intros HEOF Hcheck.
  destruct validateCode_outcome as [[[|] Hb]|Ht]; [|auto|auto].
  apply validateCode_accepted in Hb as (? & ? & ? & ? & Hacc); [|exact HEOF].
  destruct Hacc as (_ & _ & _ & _ & _ & _ & _ & _ & _ & Htrue). congruence.
Qed.

(** Only a version byte 0 passes the version test. *)
Lemma validateCode_version :
  isEOFCode code = true -> byteAt code 2 <> Some 0 ->
  validateCode handlers code = Returns false.
Proof.
  intros HEOF Hv. unfold validateCode. rewrite HEOF.
  destruct (len code <=? 2); [reflexivity|].
  unfold _getEOFVersion. cbv zeta.
  rewrite (neqJS_true (byteAt code 2) 0 Hv). reflexivity.
Qed.

(** [validateCode] throws only on a type section that is cut short: the
    header is complete and announces more type entries than the container
    holds. *)
Lemma validateCode_throws :
  validateCode handlers code = Throws RangeError ->
  exists numCodeSections,
    numCodeSectionsOf code = Next numCodeSections /\
    1 <= numCodeSections /\
    bodyStartPosOf numCodeSections <= len code
      < bodyStartPosOf numCodeSections + 4 * numCodeSections.
Proof.
  unfold validateCode. intros H.
  run_guard H. run_guard H. run_guard H. run_guard H. run_guard H.
  apply Z.ltb_ge in Hg2.
  apply run_bind in H as [H | (ts & Hts & H)].
  { destruct (readUint16BE_inside code 4) as (v & Hv & _); [lia | lia |].
    unfold typeSectionSizeOf in H. congruence. }
  cbv beta zeta in H. run_guard H. run_guard H. run_guard H.
  apply run_bind in H as [H | (n & Hn & H)].
  { destruct (readUint16BE_inside code 7) as (v & Hv & _); [lia | lia |].
    unfold numCodeSectionsOf in H. congruence. }
  cbv beta zeta in H. run_guard H. run_guard H. run_guard H. run_guard H.
  run_guard H. run_guard H.
  apply negb_false_iff, Z.eqb_eq in Hg4. apply Z.ltb_ge in Hg5.
  apply orb_false_iff in Hg7 as [Hmax Hzero].
  apply Z.ltb_ge in Hmax. apply Z.eqb_neq in Hzero.
  apply negb_false_iff, Z.eqb_eq in Hg8. apply Z.ltb_ge in Hg11.
  unfold bodyStartPosOf, dataSectionMarkerIndexOf in *.
  destruct (readUint16BE_Next _ _ _ Hn) as (a & b & Ha & Hb & ->).
  apply byteAt_Some in Ha as [_ Ha], Hb as [_ Hb].
  set (n := a * 2 ^ 8 + b) in *.
  assert (1 <= n) as Hn1 by (subst n; lia).
  apply run_bind in H as [H | (p & Hp & H)].
  { exists n. split_and!; [exact Hn | exact Hn1 | lia |].
    destruct (Z.lt_ge_cases (len code) (9 + 2 * n + 4 + 4 * n)) as [|Hfits];
      [assumption|].
    apply typeSections_inside in H; [discriminate | lia | lia]. }
  exfalso. cbv beta zeta in H.
  apply run_bind in H as [H | (cs & Hcs & H)].
  { destruct (sumCodeSizes_inside code (Z.to_nat n) 9 0) as [v Hv]; [lia | lia |].
    unfold codeSizeOf in H. congruence. }
  cbv beta zeta in H.
  apply run_bind in H as [H | (ds & Hds & H)].
  { destruct (readUint16BE_inside code (9 + 2 * n + 1)) as (v & Hv & _);
      [lia | lia |].
    unfold dataSectionSizeOf, dataSectionMarkerIndexOf in H. congruence. }
  cbv beta zeta in H. run_guard H.
  apply run_bind in H as [H | (ok & Hok & H)].
  { destruct (checkOpcodes_returns handlers code) as [r Hr].
    rewrite Hr in H. discriminate. }
  run_guard H. discriminate.
Qed.

End Header.

(** ** Acceptance *)

Section Accepted.

Variable handlers : gset Z.
Variable code : Buffer.

Hypothesis accepted : validateCode handlers code = Returns true.
Hypothesis magic : isEOFCode code = true.

Lemma accepted_check : checkOpcodes handlers code = Returns true.
Proof.
  destruct (validateCode_accepted _ _ accepted magic)
    as (? & ? & ? & ? & _ & _ & _ & _ & _ & _ & _ & _ & _ & Hcheck).
  exact Hcheck.
Qed.

Lemma accepted_pass :
  exists final, scanAll handlers code = Next final /\
    isTerminating (byteAt code (len code - 1)) = true /\
    noJumpIntoImmediate final = true.
Proof. apply checkOpcodes_true, accepted_check. Qed.

(** The declared sizes fall one byte short of the container. *)
Lemma accepted_length :
  exists typeSectionSize numCodeSections codeSize dataSectionSize,
    typeSectionSizeOf code = Next typeSectionSize /\
    numCodeSectionsOf code = Next numCodeSections /\
    codeSizeOf code numCodeSections = Next codeSize /\
    dataSectionSizeOf code numCodeSections = Next dataSectionSize /\
    typeSectionSize + codeSize + dataSectionSize
      = len code - (13 + 2 * numCodeSections) - 1.
Proof.
  destruct (validateCode_accepted _ _ accepted magic)
    as (ts & n & cs & ds & _ & _ & Hts & Hn & _ & _ & Hcs & Hds & Hlen & _).
  exists ts, n, cs, ds. unfold bodyStartPosOf, dataSectionMarkerIndexOf in Hlen.
  split_and!; first [assumption | lia].
Qed.

Lemma accepted_targets final t :
  scanAll handlers code = Next final -> t ∈ rjumpdests final ->
  0 <= t <= len code - 1 /\ t ∉ immediates final.
Proof.
  intros Hfinal Ht.
  destruct accepted_pass as (final' & Hfinal' & _ & Hjumps).
  rewrite Hfinal in Hfinal'. injection Hfinal' as <-. split.
  - apply scanLoop_Next in Hfinal as (_ & _ & Hnew).
    destruct (Hnew t Ht) as [Hin|]; [|assumption].
    cbn in Hin. set_solver.
  - unfold noJumpIntoImmediate in Hjumps.
    apply Is_true_true, forallb_True in Hjumps.
    rewrite Forall_forall in Hjumps.
    specialize (Hjumps t (proj2 (elem_of_elements _ _) Ht)).
    apply Is_true_true, negb_true_iff, bool_decide_eq_false in Hjumps.
    exact Hjumps.
Qed.

(** The last byte is read as an opcode, so it is both allowed and
    terminating: it is not 0xFF. *)
Lemma accepted_last_byte :
  exists b, byteAt code (len code - 1) = Some b /\
    b ∈ opcodes handlers /\ (b = 0x00 \/ b = 0xf3 \/ b = 0xfd \/ b = 0xfe).
Proof.
  destruct accepted_pass as (final & Hfinal & Hterm & _).
  destruct (isEOFCode_bytes _ magic) as (_ & _ & Hlen).
  pose proof (last_byte_scanned _ _ _ Hfinal ltac:(lia)) as Hlast.
  unfold isTerminating in Hterm.
  destruct (byteAt code (len code - 1)) as [b|] eqn:Hb; [|discriminate].
  apply bool_decide_eq_true in Hterm.
  assert (b ∈ opcodes handlers) as Hallowed.
  { destruct (decide (b ∈ opcodes handlers)) as [|Hout]; [assumption|].
    assert (checkOpcodes handlers code = Returns false) as Hrej.
    { apply (scanned_reject _ _ _ Hlast). intros s Hs.
      apply (scanBody_undefined _ _ s b); [congruence | exact Hout]. }
    rewrite accepted_check in Hrej. discriminate. }
  exists b. split_and!; [reflexivity | exact Hallowed |].
  assert (b <> 0xff) as Hff.
  { intros ->. exact (selfdestruct_not_allowed handlers Hallowed). }
  unfold terminatingOpcodes in Hterm. set_solver.
Qed.

End Accepted.

(** ** The header and the type entries of an accepted container *)

Ltac run_guard_as H Hg :=
  let u := fresh "u" in
  apply run_bind in H as [H | (u & Hg & H)];
  [apply returnIf_Halt in H as [_ H]; discriminate
  |apply returnIf_Next in Hg; cbv beta zeta in H].

Lemma typeSections_entries code n : forall p p',
  typeSections code n p = Next p' ->
  forall k, 0 <= k < Z.of_nat n ->
    exists inputs outputs maxStackHeight,
      byteAt code (p + 4 * k) = Some inputs /\ inputs <= 0x7f /\
      byteAt code (p + 4 * k + 1) = Some outputs /\ outputs <= 0x7f /\
      readUint16BE code (p + 4 * k + 2) = Next maxStackHeight /\
      maxStackHeight <= 1023.
Proof.
  induction n as [|n IH]; intros p p' H k Hk; [lia|].
  cbn [typeSections] in H.
  apply bind_Next in H as (inputs & Hin & H). cbv beta in H.
  apply bind_Next in H as (u1 & Hg1 & H). apply returnIf_Next, Z.ltb_ge in Hg1.
  apply bind_Next in H as (outputs & Hout & H). cbv beta in H.
  apply bind_Next in H as (u2 & Hg2 & H). apply returnIf_Next, Z.ltb_ge in Hg2.
  apply bind_Next in H as (maxStack & Hmax & H). cbv beta in H.
  apply bind_Next in H as (u3 & Hg3 & H). apply returnIf_Next, Z.ltb_ge in Hg3.
  destruct (Z.eq_dec k 0) as [->|Hk0].
  - exists inputs, outputs, maxStack.
    replace (p + 4 * 0) with p by lia.
    unfold readUint8 in Hin, Hout.
    destruct (byteAt code p); [|discriminate]. injection Hin as ->.
    destruct (byteAt code (p + 1)); [|discriminate]. injection Hout as ->.
    split_and!; first [reflexivity | assumption].
  - destruct (IH _ _ H (k - 1) ltac:(lia)) as (i & o & m & Hi & ? & Ho & ? & Hm & ?).
    exists i, o, m.
    replace (p + 4 * k) with (p + 4 + 4 * (k - 1)) by lia.
    split_and!; assumption.
Qed.

Lemma sumCodeSizes_ge code n : forall p acc v,
  sumCodeSizes code n p acc = Next v -> acc <= v.
Proof.
  induction n as [|n IH]; intros p acc v H; cbn [sumCodeSizes] in H.
  - injection H as <-. lia.
  - apply bind_Next in H as (size & Hsize & H). cbv beta in H.
    apply readUint16BE_Next in Hsize as (a & b & Ha & Hb & ->).
    apply byteAt_Some in Ha as [_ Ha], Hb as [_ Hb].
    apply IH in H. lia.
Qed.

Section AcceptedHeader.

Variable handlers : gset Z.
Variable code : Buffer.

Hypothesis accepted : validateCode handlers code = Returns true.
Hypothesis magic : isEOFCode code = true.

Lemma accepted_header :
  exists numCodeSections,
    numCodeSectionsOf code = Next numCodeSections /\
    1 <= numCodeSections <= 1024 /\
    typeSectionSizeOf code = Next (4 * numCodeSections) /\
    byteAt code 3 = Some KIND_TYPE /\
    byteAt code 6 = Some KIND_CODE /\
    byteAt code (9 + 2 * numCodeSections) = Some KIND_DATA /\
    byteAt code (12 + 2 * numCodeSections) = Some TERMINATOR /\
    (exists p, typeSections code (Z.to_nat numCodeSections)
                 (13 + 2 * numCodeSections) = Next p) /\
    14 + 6 * numCodeSections <= len code.
Proof.
  pose proof accepted as H. unfold validateCode in H. rewrite magic in H.
  apply run_bind in H as [H | (u & _ & H)]; [discriminate|].
  run_guard_as H Hshort. run_guard_as H Hversion. run_guard_as H Hmin.
  run_guard_as H Hkt.
  run_read H ts Hts. run_guard_as H Hmod. run_guard_as H Hts4.
  run_guard_as H Hkc.
  run_read H n Hn. run_guard_as H Hrange. run_guard_as H Hdiv.
  run_guard_as H Hlm. run_guard_as H Hkd. run_guard_as H Hlb.
  run_guard_as H Hterm.
  apply run_bind in H as [H | (p & Hp & H)].
  { apply typeSections_Halt in H as [H|H]; discriminate. }
  run_read H cs Hcs. run_read H ds Hds. run_guard_as H Hlen.
  apply neqJS_eq in Hkt, Hkc, Hkd, Hterm.
  apply negb_false_iff, Z.eqb_eq in Hmod, Hdiv, Hlen.
  apply orb_false_iff in Hrange as [Hmax Hzero].
  apply Z.ltb_ge in Hmax. apply Z.eqb_neq in Hzero.
  unfold bodyStartPosOf, dataSectionMarkerIndexOf in *.
  destruct (readUint16BE_Next _ _ _ Hn) as (a & b & Ha & Hb & Hnv).
  apply byteAt_Some in Ha as [_ Ha], Hb as [_ Hb].
  assert (ts = 4 * n) as -> by (pose proof (Z.div_mod ts 4); lia).
  replace (4 * n / 4) with n in Hp by lia.
  pose proof (typeSections_Next _ _ _ _ Hp) as Hpos.
  apply sumCodeSizes_ge in Hcs.
  apply readUint16BE_Next in Hds as (c & d & Hc & Hd & ->).
  apply byteAt_Some in Hc as [_ Hc], Hd as [_ Hd].
  exists n.
  replace (12 + 2 * n) with (9 + 2 * n + 3) by lia.
  replace (13 + 2 * n) with (9 + 2 * n + 4) by lia.
  split_and!; try assumption; try lia. eauto.
Qed.

End AcceptedHeader.

(** ** What [validateCode] accepts *)

Lemma neqJS_same a b : a = Some b -> neqJS a b = false.
Proof.
  intros ->. unfold neqJS. rewrite bool_decide_eq_true_2; reflexivity.
Qed.

Lemma guard_false {A} c b (f : unit -> ctl A) :
  c = false -> returnIf c b ≫= f = f tt.
Proof. intros ->. reflexivity. Qed.

Lemma bind_eq {A B} (m : ctl A) a (f : A -> ctl B) :
  m = Next a -> m ≫= f = f a.
Proof. intros ->. reflexivity. Qed.

Lemma typeSections_ok code n : forall p,
  (forall k, 0 <= k < Z.of_nat n -> typeEntryOK code (p + 4 * k)) ->
  typeSections code n p = Next (p + 4 * Z.of_nat n).
Proof.
  induction n as [|n IH]; intros p Hok; cbn [typeSections].
  - f_equal. lia.
  - destruct (Hok 0 ltac:(lia)) as (i & o & m & Hi & ? & Ho & ? & Hm & ?).
    replace (p + 4 * 0) with p in * by lia.
    unfold readUint8. rewrite Hi, Ho, Hm. cbn.
    replace (0x7f <? i) with false by lia. cbn.
    replace (0x7f <? o) with false by lia. cbn.
    replace (1023 <? m) with false by lia. cbn.
    rewrite IH.
    + f_equal. lia.
    + intros k Hk. replace (p + 4 + 4 * k) with (p + 4 * (k + 1)) by lia.
      apply Hok. lia.
Qed.

Section Accepts.

Variable handlers : gset Z.
Variable code : Buffer.

Lemma validateCode_intro numCodeSections codeSize dataSectionSize :
    byteAt code 2 = Some 0 ->
    byteAt code 3 = Some KIND_TYPE ->
    typeSectionSizeOf code = Next (4 * numCodeSections) ->
    byteAt code 6 = Some KIND_CODE ->
    numCodeSectionsOf code = Next numCodeSections ->
    1 <= numCodeSections <= 1024 ->
    byteAt code (9 + 2 * numCodeSections) = Some KIND_DATA ->
    byteAt code (12 + 2 * numCodeSections) = Some TERMINATOR ->
    (forall k, 0 <= k < numCodeSections ->
       typeEntryOK code (13 + 2 * numCodeSections + 4 * k)) ->
    codeSizeOf code numCodeSections = Next codeSize ->
    dataSectionSizeOf code numCodeSections = Next dataSectionSize ->
    len code = 14 + 6 * numCodeSections + codeSize + dataSectionSize ->
    checkOpcodes handlers code = Returns true ->
    validateCode handlers code = Returns true.
Proof.
  intros Hv Hkt Hts Hkc Hn Hrange Hkd Hterm Hentries Hcs Hds Hlen Hcheck.
  pose proof (sumCodeSizes_ge _ _ _ _ _ Hcs) as Hcs0.
  destruct (readUint16BE_Next _ _ _ Hds) as (c & d & Hc & Hd & Hdsv).
  apply byteAt_Some in Hc as [_ Hc], Hd as [_ Hd].
  unfold validateCode.
  destruct (isEOFCode code); [|reflexivity].
  rewrite guard_false by reflexivity.
  rewrite guard_false by lia.
  cbv zeta. unfold _getEOFVersion.
  rewrite guard_false by (apply neqJS_same; exact Hv).
  rewrite guard_false by lia.
  rewrite guard_false by (apply neqJS_same; exact Hkt).
  rewrite (bind_eq _ _ _ Hts).
  rewrite guard_false by (rewrite Z.mul_comm, Z_mod_mult; reflexivity).
  rewrite guard_false by lia.
  rewrite guard_false by (apply neqJS_same; exact Hkc).
  rewrite (bind_eq _ _ _ Hn).
  rewrite guard_false by lia.
  replace (4 * numCodeSections / 4) with numCodeSections
    by (rewrite Z.mul_comm, Z_div_mult; lia).
  rewrite guard_false by lia.
  unfold bodyStartPosOf, dataSectionMarkerIndexOf.
  rewrite guard_false by lia.
  rewrite guard_false by (apply neqJS_same; exact Hkd).
  rewrite guard_false by lia.
  rewrite guard_false
    by (apply neqJS_same; replace (9 + 2 * numCodeSections + 3)
          with (12 + 2 * numCodeSections) by lia; exact Hterm).
  assert (typeSections code (Z.to_nat numCodeSections) (9 + 2 * numCodeSections + 4)
          = Next (9 + 2 * numCodeSections + 4 + 4 * Z.of_nat (Z.to_nat numCodeSections)))
    as Htypes.
  { apply typeSections_ok. intros k Hk.
    replace (9 + 2 * numCodeSections + 4 + 4 * k)
      with (13 + 2 * numCodeSections + 4 * k) by lia.
    apply Hentries. lia. }
  rewrite (bind_eq _ _ _ Htypes).
  rewrite (bind_eq _ _ _ Hcs).
  unfold dataSectionSizeOf, dataSectionMarkerIndexOf in Hds.
  rewrite (bind_eq _ _ _ Hds).
  rewrite guard_false by (apply negb_false_iff, Z.eqb_eq; lia).
  rewrite Hcheck. reflexivity.
Qed.

Lemma validateCode_iff :
  validateCode handlers code = Returns true <->
  isEOFCode code = false \/
  exists numCodeSections codeSize dataSectionSize,
    byteAt code 2 = Some 0 /\
    byteAt code 3 = Some KIND_TYPE /\
    typeSectionSizeOf code = Next (4 * numCodeSections) /\
    byteAt code 6 = Some KIND_CODE /\
    numCodeSectionsOf code = Next numCodeSections /\
    1 <= numCodeSections <= 1024 /\
    byteAt code (9 + 2 * numCodeSections) = Some KIND_DATA /\
    byteAt code (12 + 2 * numCodeSections) = Some TERMINATOR /\
    (forall k, 0 <= k < numCodeSections ->
       typeEntryOK code (13 + 2 * numCodeSections + 4 * k)) /\
    codeSizeOf code numCodeSections = Next codeSize /\
    dataSectionSizeOf code numCodeSections = Next dataSectionSize /\
    len code = 14 + 6 * numCodeSections + codeSize + dataSectionSize /\
    checkOpcodes handlers code = Returns true.
Proof.
  split.
  - intros Hacc. destruct (isEOFCode code) eqn:HEOF; [right | left; reflexivity].
    destruct (validateCode_accepted _ _ Hacc HEOF)
      as (ts & n & cs & ds & Hv & _ & Hts & Hn & _ & Heq & Hcs & Hds & Hlen & Hcheck).
    destruct (accepted_header _ _ Hacc HEOF)
      as (n' & Hn' & Hrange & _ & Hkt & Hkc & Hkd & Hterm & [p Hp] & _).
    rewrite Hn in Hn'. injection Hn' as <-. subst ts.
    unfold bodyStartPosOf, dataSectionMarkerIndexOf in Hlen.
    exists n, cs, ds. split_and!; try assumption; try lia.
    intros k Hk.
    destruct (typeSections_entries _ _ _ _ Hp k ltac:(lia))
      as (i & o & m & Hfacts).
    exists i, o, m. exact Hfacts.
  - intros [HEOF | (n & cs & ds & Hv & Hkt & Hts & Hkc & Hn & Hrange & Hkd & Hterm
                    & Hentries & Hcs & Hds & Hlen & Hcheck)].
    + unfold validateCode. rewrite HEOF. reflexivity.
    + eapply validateCode_intro; eassumption.
Qed.

End Accepts.

(** ** The order of the pass

    The loop tests form one chain of states with growing positions: the
    operand bytes of an instruction lie between its opcode and the next
    opcode read. *)

Section PassOrder.

Variable handlers : gset Z.
Variable code : Buffer.

(** The operand bytes of an instruction are the bytes a completed
    iteration skips. *)
Lemma scanBody_skips s s' i :
  scanBody handlers code s = Next (Continue s') ->
  operand code (pos s) i <-> pos s < i < pos s'.
Proof.
  unfold scanBody. intros H.
  destruct (byteAt code (pos s)) as [op|] eqn:Hop; [|discriminate].
  guard_next H. bind_next H. destruct a as [p imms].
  destruct ((0x60 <=? op) && (op <=? 0x7f)) eqn:Hpush.
  - guard_next Ha. injection Ha as <- <-.
    apply andb_true_iff in Hpush as [Hlo Hhi]. apply Z.leb_le in Hlo, Hhi.
    destruct (push_tests op ltac:(lia)) as (_ & Hr & Hv).
    rewrite Hr, Hv in H. injection H as <-. cbn. split.
    + intros [op' Hb Hp Hi | op' Hb Hp Hi | n Hb Hn Hi];
        rewrite Hop in Hb; injection Hb as Hb; lia.
    + intros Hi. apply (operand_push code (pos s) i op); [exact Hop | lia | lia].
  - injection Ha as <- <-.
    assert (~ 0x60 <= op <= 0x7f) as Hnp.
    { intros [? ?]. apply andb_false_iff in Hpush as [Hf|Hf];
        apply Z.leb_gt in Hf; lia. }
    destruct ((op =? 0x5c) || (op =? 0x5d)) eqn:Hrjump.
    + guard_next H. bind_next H. guard_next H. injection H as <-. cbn.
      assert (op = 0x5c \/ op = 0x5d) as Hop2.
      { apply orb_true_iff in Hrjump as [Hj|Hj]; apply Z.eqb_eq in Hj; auto. }
      split.
      * intros [op' Hb Hp Hi | op' Hb Hp Hi | n Hb Hn Hi];
          rewrite Hop in Hb; injection Hb as Hb; lia.
      * intros Hi. apply (operand_rjump code (pos s) i op); [exact Hop | exact Hop2 | lia].
    + apply orb_false_iff in Hrjump as [H5c H5d].
      apply Z.eqb_neq in H5c, H5d.
      destruct (Z.eq_dec op 0x5e) as [Heq|Hne];
        [subst op; change (0x5e =? 0x5e) with true in H; cbv iota in H
        |apply Z.eqb_neq in Hne; rewrite Hne in H; apply Z.eqb_neq in Hne].
      * destruct (byteAt code (pos s + 1)) as [tableSize|] eqn:Htab; [|discriminate].
        guard_next H. guard_next H. bind_next H. injection H as <-. cbn. split.
        -- intros [op' Hb Hp Hi | op' Hb Hp Hi | n Hb Hn Hi];
             rewrite Hop in Hb; try (injection Hb as Hb); try lia.
           rewrite Htab in Hn. injection Hn as <-. lia.
        -- intros Hi.
           apply (operand_rjumpv code (pos s) i tableSize); [exact Hop | exact Htab | lia].
      * injection H as <-. cbn. split; [|lia].
        intros [op' Hb Hp Hi | op' Hb Hp Hi | n Hb Hn Hi];
          rewrite Hop in Hb; injection Hb as Hb; lia.
Qed.

Lemma steps_snoc k : forall a s s',
  steps handlers code k a = Some s -> pos s < len code ->
  scanBody handlers code s = Next (Continue s') ->
  steps handlers code (S k) a = Some s'.
Proof.
  induction k as [|k IH]; intros a s s' Hk Hlt Hbody.
  - cbn in Hk. injection Hk as ->. cbn.
    apply Z.ltb_lt in Hlt. rewrite Hlt, Hbody. reflexivity.
  - cbn [steps] in Hk. change (steps handlers code (S (S k)) a) with
      (if pos a <? len code then
         match scanBody handlers code a with
         | Next (Continue a') => steps handlers code (S k) a'
         | _ => None
         end
       else None).
    destruct (pos a <? len code); [|discriminate].
    destruct (scanBody handlers code a) as [[a'|a']|c]; try discriminate.
    eapply IH; eauto.
Qed.

Lemma reachable_steps s :
  reachable handlers code s -> exists k, steps handlers code k scanStart = Some s.
Proof.
  induction 1 as [|s s' _ [k IH] Hlt Hbody].
  - exists 0%nat. reflexivity.
  - exists (S k). eapply steps_snoc; eauto.
Qed.

Lemma steps_pos k : forall a s,
  steps handlers code k a = Some s -> pos a + Z.of_nat k <= pos s.
Proof.
  induction k as [|k IH]; intros a s Hk; cbn [steps] in Hk.
  - injection Hk as ->. lia.
  - destruct (pos a <? len code); [|discriminate].
    destruct (scanBody handlers code a) as [[a'|a']|c] eqn:Hbody; try discriminate.
    apply scanBody_Continue in Hbody as (_ & Hp & _).
    apply IH in Hk. lia.
Qed.

Lemma steps_split j : forall k a s,
  steps handlers code k a = Some s -> (j <= k)%nat ->
  exists m, steps handlers code j a = Some m /\
            steps handlers code (k - j) m = Some s.
Proof.
  induction j as [|j IH]; intros k a s Hk Hjk.
  - exists a. rewrite Nat.sub_0_r. auto.
  - destruct k as [|k]; [lia|]. cbn [steps] in Hk |- *.
    destruct (pos a <? len code); [|discriminate].
    destruct (scanBody handlers code a) as [[a'|a']|c]; try discriminate.
    apply (IH k a' s Hk). lia.
Qed.

(** A byte the pass reads as an opcode is not an operand byte of an
    instruction the pass reads. *)
Lemma scanned_not_operand i :
  scanned handlers code i -> ~ immediateSet handlers code i.
Proof.
  intros (si & Hri & Hpi & _) (q & (sq & Hrq & Hpq & _) & Hop).
  destruct (reachable_steps _ Hri) as [k Hk].
  destruct (reachable_steps _ Hrq) as [j Hj].
  subst i q.
  destruct (Nat.le_gt_cases k j) as [Hle|Hgt].
  - destruct (steps_split k _ _ _ Hj Hle) as (m & Hm & Hrest).
    rewrite Hk in Hm. injection Hm as <-.
    apply steps_pos in Hrest.
    assert (pos sq < pos si) by (destruct Hop; lia). lia.
  - destruct (steps_split j _ _ _ Hk ltac:(lia)) as (m & Hm & Hrest).
    rewrite Hj in Hm. injection Hm as <-.
    destruct (k - j)%nat as [|d] eqn:Hd; [lia|]. cbn [steps] in Hrest.
    destruct (pos sq <? len code); [|discriminate].
    destruct (scanBody handlers code sq) as [[s1|s1]|c] eqn:Hbody; try discriminate.
    apply steps_pos in Hrest.
    apply (scanBody_skips _ _ (pos si) Hbody) in Hop. lia.
Qed.

(** A pass that reaches the end of the loop has gone over every byte from
    its state on: each is an opcode read or an operand byte. *)
Lemma scanLoop_cover fuel : forall s final,
  reachable handlers code s ->
  scanLoop handlers code fuel s = Next final ->
  forall i, pos s <= i < len code ->
    scanned handlers code i \/ immediateSet handlers code i.
Proof.
  induction fuel as [|fuel IH]; intros s final Hr Hloop i Hi;
    cbn [scanLoop] in Hloop;
    rewrite (proj2 (Z.ltb_lt _ _) (Z.le_lt_trans _ _ _ (proj1 Hi) (proj2 Hi)))
      in Hloop;
    [discriminate|].
  assert (scanned handlers code (pos s)) as Hhere.
  { exists s. split_and!; [exact Hr | reflexivity | lia]. }
  destruct (scanBody handlers code s) as [[s1|s1]|c] eqn:Hbody; cbn in Hloop;
    [| |discriminate].
  - destruct (Z.eq_dec i (pos s)) as [->|Hne]; [left; exact Hhere|].
    destruct (Z.lt_ge_cases i (pos s1)) as [Hlt|Hge].
    + right. exists (pos s). split; [exact Hhere|].
      apply (scanBody_skips _ _ i Hbody). lia.
    + apply (IH s1 final); [|exact Hloop|lia].
      eapply reachable_step; [exact Hr | lia | exact Hbody].
  - apply scanBody_Break in Hbody as (_ & Hlast & _).
    replace i with (pos s) by lia. left. exact Hhere.
Qed.

Lemma scanAll_cover final i :
  scanAll handlers code = Next final -> 0 <= i < len code ->
  scanned handlers code i \/ immediateSet handlers code i.
Proof.
  intros Hfinal Hi.
  apply (scanLoop_cover _ scanStart final (reachable_start _ _) Hfinal). exact Hi.
Qed.

Lemma jumptable_exact n : forall jp fp d d',
  jumptable code n jp fp d = Next d' ->
  forall t, t ∈ d' ->
    t ∈ d \/ exists k offset, 0 <= k < Z.of_nat n /\
                readInt16BE code (jp + 2 * k) = Next offset /\ t = offset + fp.
Proof.
  induction n as [|n IH]; intros jp fp d d' H t Ht; cbn [jumptable] in H.
  - injection H as <-. auto.
  - bind_next H. guard_next H.
    destruct (IH _ _ _ _ H t Ht) as [Hin | (k & offset & Hk & Hoff & ->)].
    + apply elem_of_union in Hin as [Hin|Hin]; [auto|].
      apply elem_of_singleton in Hin. right. exists 0, a.
      replace (jp + 2 * 0) with jp by lia. split; [lia | split; [exact Ha | exact Hin]].
    + right. exists (k + 1), offset.
      replace (jp + 2 * (k + 1)) with (jp + 2 + 2 * k) by lia.
      split; [lia | split; [exact Hoff | reflexivity]].
Qed.

(** What a completed iteration adds to the two sets belongs to its
    instruction. *)
Lemma scanBody_exact s s' :
  scanBody handlers code s = Next (Continue s') ->
  (forall i, i ∈ immediates s' -> i ∈ immediates s \/ operand code (pos s) i) /\
  (forall t, t ∈ rjumpdests s' -> t ∈ rjumpdests s \/ jumpTarget code (pos s) t).
Proof.
  intros Hbody.
  assert (forall i, i ∈ immediates s' -> i ∈ immediates s \/ pos s < i < pos s')
    as Himm; [|split].
  - revert Hbody. unfold scanBody. intros H.
    destruct (byteAt code (pos s)) as [op|] eqn:Hop; [|discriminate].
    guard_next H. bind_next H. destruct a as [p imms].
    assert (pos s < p /\ forall i, i ∈ imms -> i ∈ immediates s \/ pos s < i < p)
      as [Hp Himms].
    { destruct ((0x60 <=? op) && (op <=? 0x7f)) eqn:Hpush.
      - guard_next Ha. injection Ha as <- <-.
        apply andb_true_iff in Hpush as [Hlo _]. apply Z.leb_le in Hlo.
        split; [lia|]. intros i Hi. apply elem_of_union in Hi as [|Hi]; [auto|].
        apply elem_of_list_to_set, elem_of_seqZ in Hi. right. lia.
      - injection Ha as <- <-. split; [lia | auto]. }
    destruct ((op =? 0x5c) || (op =? 0x5d)).
    + guard_next H. bind_next H. guard_next H. injection H as <-. cbn.
      intros i Hi. apply elem_of_union in Hi as [Hi|Hi].
      * apply elem_of_union in Hi as [Hi|Hi].
        -- destruct (Himms i Hi) as [|]; [auto | right; lia].
        -- apply elem_of_singleton in Hi. right. lia.
      * apply elem_of_singleton in Hi. right. lia.
    + destruct (op =? 0x5e).
      * destruct (byteAt code p) as [tableSize|] eqn:Htab; [|discriminate].
        pose proof (byteAt_Some _ _ _ Htab) as [_ Hts].
        guard_next H. guard_next H. bind_next H. injection H as <-. cbn.
        intros i Hi. apply elem_of_union in Hi as [Hi|Hi].
        -- destruct (Himms i Hi) as [|]; [auto | right; lia].
        -- apply elem_of_list_to_set, elem_of_seqZ in Hi. right. lia.
      * injection H as <-. cbn. intros i Hi.
        destruct (Himms i Hi) as [|]; [auto | right; lia].
  - intros i Hi. destruct (Himm i Hi) as [|Hrange]; [auto|].
    right. apply (scanBody_skips _ _ i Hbody). exact Hrange.
  - revert Hbody. unfold scanBody. intros H.
    destruct (byteAt code (pos s)) as [op|] eqn:Hop; [|discriminate].
    guard_next H. bind_next H. destruct a as [p imms].
    destruct ((0x60 <=? op) && (op <=? 0x7f)) eqn:Hpush.
    + guard_next Ha. injection Ha as <- <-.
      apply andb_true_iff in Hpush as [Hlo Hhi]. apply Z.leb_le in Hlo, Hhi.
      destruct (push_tests op ltac:(lia)) as (_ & Hr & Hv).
      rewrite Hr, Hv in H. injection H as <-. cbn. auto.
    + injection Ha as <- <-.
      destruct ((op =? 0x5c) || (op =? 0x5d)) eqn:Hrjump.
      * guard_next H. bind_next H. guard_next H. injection H as <-. cbn.
        assert (op = 0x5c \/ op = 0x5d) as Hop2.
        { apply orb_true_iff in Hrjump as [Hj|Hj]; apply Z.eqb_eq in Hj; auto. }
        intros t Ht. apply elem_of_union in Ht as [|Ht]; [auto|].
        apply elem_of_singleton in Ht. right.
        apply (target_rjump code (pos s) t op a); [exact Hop | exact Hop2 | exact Ha | lia].
      * destruct (Z.eq_dec op 0x5e) as [Heq|Hne];
          [subst op; change (0x5e =? 0x5e) with true in H; cbv iota in H
          |apply Z.eqb_neq in Hne; rewrite Hne in H].
        -- destruct (byteAt code (pos s + 1)) as [tableSize|] eqn:Htab; [|discriminate].
           pose proof (byteAt_Some _ _ _ Htab) as [_ Hts].
           guard_next H. guard_next H. bind_next H. injection H as <-. cbn.
           intros t Ht.
           destruct (jumptable_exact _ _ _ _ _ Ha t Ht)
             as [|(k & offset & Hk & Hoff & ->)]; [auto|].
           right.
           apply (target_rjumpv code (pos s) _ tableSize k offset);
             [exact Hop | exact Htab | lia | | lia].
           replace (pos s + 2 + 2 * k) with (pos s + 1 + 1 + 2 * k) by lia.
           exact Hoff.
        -- injection H as <-. cbn. auto.
Qed.

(** In every state of the pass, the two sets hold only operand bytes and
    targets of instructions already read. *)
Lemma reachable_exact s :
  reachable handlers code s ->
  (forall i, i ∈ immediates s -> immediateSet handlers code i) /\
  (forall t, t ∈ rjumpdests s ->
     exists q, scanned handlers code q /\ jumpTarget code q t).
Proof.
  induction 1 as [|s s' Hr [IHi IHt] Hlt Hbody].
  - split; intros x Hx; cbn in Hx; set_solver.
  - destruct (scanBody_exact _ _ Hbody) as [Hi Ht].
    assert (scanned handlers code (pos s)) as Hhere.
    { exists s. split_and!; [exact Hr | reflexivity | exact Hlt]. }
    split.
    + intros i Hin. destruct (Hi i Hin) as [|Hop]; [auto|].
      exists (pos s). auto.
    + intros t Hin. destruct (Ht t Hin) as [|Htarget]; [auto|].
      exists (pos s). auto.
Qed.

(** The sets at the end of the pass are those of a state of the pass. *)
Lemma scanLoop_final fuel : forall s final,
  reachable handlers code s ->
  scanLoop handlers code fuel s = Next final ->
  exists s', reachable handlers code s' /\
    rjumpdests final = rjumpdests s' /\ immediates final = immediates s'.
Proof.
  induction fuel as [|fuel IH]; intros s final Hr Hloop; cbn [scanLoop] in Hloop.
  - destruct (pos s <? len code); [discriminate|].
    injection Hloop as <-. eauto.
  - destruct (Z.ltb_spec (pos s) (len code)) as [Hlt|]; [|injection Hloop as <-; eauto].
    destruct (scanBody handlers code s) as [[s1|s1]|c] eqn:Hbody; cbn in Hloop;
      [| |discriminate].
    + apply (IH s1 final); [|exact Hloop].
      eapply reachable_step; [exact Hr | exact Hlt | exact Hbody].
    + injection Hloop as <-.
      apply scanBody_Break in Hbody as (_ & _ & Hd & Hi). eauto.
Qed.

Lemma scanAll_exact final :
  scanAll handlers code = Next final ->
  (forall i, i ∈ immediates final <-> immediateSet handlers code i) /\
  (forall t, t ∈ rjumpdests final <->
     exists q, scanned handlers code q /\ jumpTarget code q t).
Proof.
  intros Hfinal.
  destruct (scanLoop_final _ _ _ (reachable_start _ _) Hfinal)
    as (s & Hr & Hd & Hi).
  destruct (reachable_exact _ Hr) as [Himm Hdest].
  split.
  - intros i. split.
    + rewrite Hi. apply Himm.
    + intros (q & Hq & Hop).
      destruct (scanned_sets _ _ _ _ Hfinal Hq) as [Hoperands _]. auto.
  - intros t. split.
    + rewrite Hd. apply Hdest.
    + intros (q & Hq & Ht).
      destruct (scanned_sets _ _ _ _ Hfinal Hq) as [_ Htargets]. auto.
Qed.

End PassOrder.

(** ** What the opcode pass accepts *)

Section PassAccepts.

Variable handlers : gset Z.
Variable code : Buffer.

Lemma jumptable_progress n : forall jp fp d,
  0 <= jp -> jp + 2 * Z.of_nat n <= len code ->
  (forall k offset, 0 <= k < Z.of_nat n ->
     readInt16BE code (jp + 2 * k) = Next offset ->
     0 <= offset + fp <= len code - 1) ->
  exists d', jumptable code n jp fp d = Next d'.
Proof.
  induction n as [|n IH]; intros jp fp d H0 Hn Hok; cbn [jumptable]; [eauto|].
  destruct (readInt16BE_inside code jp) as [offset Hoff]; [lia | lia |].
  rewrite Hoff. cbn.
  pose proof (Hok 0 offset ltac:(lia)) as Hrange.
  replace (jp + 2 * 0) with jp in Hrange by lia. specialize (Hrange Hoff).
  replace ((len code - 1 <? offset + fp) || (offset + fp <? 0)) with false by lia.
  cbn. apply IH; [lia | lia |].
  intros k off Hk Hread. apply (Hok (k + 1) off); [lia|].
  replace (jp + 2 * (k + 1)) with (jp + 2 + 2 * k) by lia. exact Hread.
Qed.

(** On a well-formed instruction the loop body does not return. *)
Lemma scanBody_progress s :
  0 <= pos s -> wellFormed handlers code (pos s) ->
  exists f, scanBody handlers code s = Next f.
Proof.
  intros Hnn ((op & Hop & Hin) & Hoperands & Htable & Htargets).
  pose proof (byteAt_Some _ _ _ Hop) as [Hpos Hbyte].
  unfold scanBody. rewrite Hop.
  rewrite bool_decide_eq_true_2 by exact Hin. cbn [negb returnIf].
  destruct (Z.le_gt_cases 0x60 op) as [Hlo|Hlo];
    [destruct (Z.le_gt_cases op 0x7f) as [Hhi|Hhi]|].
  - destruct (push_tests op ltac:(lia)) as (Hp & Hr & Hv).
    pose proof (Hoperands (pos s + (op - 0x5f))
      (operand_push code (pos s) (pos s + (op - 0x5f)) op Hop ltac:(lia) ltac:(lia))) as Hend.
    cbn. rewrite Hp.
    replace (len code - 1 <? pos s + 1 + op - 0x5f) with false by lia.
    cbn. rewrite Hr, Hv. eauto.
  - replace ((0x60 <=? op) && (op <=? 0x7f)) with false by lia.
    replace ((op =? 0x5c) || (op =? 0x5d)) with false by lia.
    replace (op =? 0x5e) with false by lia. cbn. eauto.
  - replace ((0x60 <=? op) && (op <=? 0x7f)) with false by lia. cbn.
    destruct ((op =? 0x5c) || (op =? 0x5d)) eqn:Hrjump.
    + assert (op = 0x5c \/ op = 0x5d) as Hop2.
      { apply orb_true_iff in Hrjump as [Hj|Hj]; apply Z.eqb_eq in Hj; auto. }
      pose proof (Hoperands (pos s + 2)
        (operand_rjump code (pos s) (pos s + 2) op Hop Hop2 ltac:(lia))) as Hend.
      replace (len code - 1 <? pos s + 1 + 2) with false by lia. cbn.
      destruct (readInt16BE_inside code (pos s + 1)) as [offset Hoff]; [lia | lia |].
      rewrite Hoff. cbn.
      pose proof (Htargets (offset + (pos s + 3))
        (target_rjump code (pos s) (offset + (pos s + 3)) op offset Hop Hop2 Hoff eq_refl)) as Hrange.
      replace ((len code - 1 <? offset + (pos s + 1) + 2) ||
               (offset + (pos s + 1) + 2 <? 0)) with false by lia.
      cbn. eauto.
    + destruct (Z.eq_dec op 0x5e) as [->|Hne];
        [|replace (op =? 0x5e) with false by lia; eauto].
      change (0x5e =? 0x5e) with true. cbv iota.
      destruct (byteAt code (pos s + 1)) as [tableSize|] eqn:Htab; [|cbn; eauto].
      pose proof (byteAt_Some _ _ _ Htab) as [_ Hts].
      destruct (Z.eq_dec tableSize 0) as [->|Hnz]; [destruct Htable; auto|].
      replace (tableSize =? 0) with false by lia. cbn.
      pose proof (Hoperands (pos s + 1 + 2 * tableSize)
        (operand_rjumpv code (pos s) (pos s + 1 + 2 * tableSize) tableSize Hop Htab ltac:(lia))) as Hend.
      replace (len code - 1 <? pos s + 1 + tableSize * 2 + 1) with false by lia.
      cbn.
      destruct (jumptable_progress (Z.to_nat tableSize) (pos s + 1 + 1)
                  (pos s + 1 + 1 + tableSize * 2) (rjumpdests s))
        as [d' Hd']; [lia | lia | |rewrite Hd'; cbn; eauto].
      intros k offset Hk Hread.
      replace (offset + (pos s + 1 + 1 + tableSize * 2))
        with (offset + (pos s + 2 + 2 * tableSize)) by lia.
      apply Htargets.
      apply (target_rjumpv code (pos s) _ tableSize k offset);
        [exact Hop | exact Htab | lia | | reflexivity].
      replace (pos s + 2 + 2 * k) with (pos s + 1 + 1 + 2 * k) by lia.
      exact Hread.
Qed.

(** A pass that returns false does so in an iteration. *)
Lemma scanLoop_Halt_inv fuel : forall s c,
  reachable handlers code s ->
  scanLoop handlers code fuel s = Halt c -> c <> OutOfFuel ->
  exists s' c', reachable handlers code s' /\ pos s' < len code /\
    scanBody handlers code s' = Halt c'.
Proof.
  induction fuel as [|fuel IH]; intros s c Hr Hloop Hc; cbn [scanLoop] in Hloop.
  - destruct (pos s <? len code); [congruence | discriminate].
  - destruct (Z.ltb_spec (pos s) (len code)) as [Hlt|]; [|discriminate].
    destruct (scanBody handlers code s) as [[s1|s1]|c1] eqn:Hbody; cbn in Hloop.
    + apply (IH s1 c); [|exact Hloop|exact Hc].
      eapply reachable_step; [exact Hr | exact Hlt | exact Hbody].
    + discriminate.
    + exists s, c1. auto.
Qed.

Lemma pass_targets final t :
  scanAll handlers code = Next final ->
  noJumpIntoImmediate final = true ->
  t ∈ rjumpdests final ->
  0 <= t <= len code - 1 /\ t ∉ immediates final.
Proof.
  intros Hfinal Hjumps Ht. split.
  - apply scanLoop_Next in Hfinal as (_ & _ & Hnew).
    destruct (Hnew t Ht) as [Hin|]; [|assumption].
    cbn in Hin. set_solver.
  - unfold noJumpIntoImmediate in Hjumps.
    apply Is_true_true, forallb_True in Hjumps.
    rewrite Forall_forall in Hjumps.
    specialize (Hjumps t (proj2 (elem_of_elements _ _) Ht)).
    apply Is_true_true, negb_true_iff, bool_decide_eq_false in Hjumps.
    exact Hjumps.
Qed.

Lemma pass_operands_inside final p i :
  scanAll handlers code = Next final ->
  scanned handlers code p -> operand code p i -> p < i <= len code - 2.
Proof.
  intros Hfinal (s & Hr & <- & Hlt) Hop.
  destruct (reachable_scanLoop _ _ _ Hr) as [fuel Hloop]. rewrite Hfinal in Hloop.
  destruct fuel as [|fuel]; cbn [scanLoop] in Hloop;
    apply Z.ltb_lt in Hlt; rewrite Hlt in Hloop; [discriminate|].
  destruct (scanBody handlers code s) as [[s1|s1]|c] eqn:Hbody; cbn in Hloop;
    [| |discriminate].
  - pose proof (scanBody_Continue _ _ _ _ Hbody) as (_ & Hp & Hlast & _).
    apply (scanBody_skips _ _ _ _ i Hbody) in Hop. lia.
  - apply scanBody_Break_bare in Hbody as [Hno _]. destruct (Hno i Hop).
Qed.

Lemma pass_wellFormed final p :
  scanAll handlers code = Next final ->
  scanned handlers code p -> wellFormed handlers code p.
Proof.
  intros Hfinal Hp.
  pose proof Hp as (s & Hr & Hpos & Hlt).
  pose proof (reachable_pos _ _ _ Hr) as Hnn.
  destruct (byteAt_inside code p ltac:(lia)) as [op Hop].
  assert (forall c, scanBody handlers code s <> Halt c) as Hgo.
  { intros c Hbody.
    rewrite (reachable_reject _ _ _ _ Hr ltac:(lia) Hbody) in Hfinal. discriminate. }
  subst p. split_and!.
  - exists op. split; [exact Hop|].
    destruct (decide (op ∈ opcodes handlers)) as [|Hout]; [assumption|].
    destruct (Hgo _ (scanBody_undefined _ _ _ _ Hop Hout)).
  - intros i Hi. apply (pass_operands_inside final _ i Hfinal Hp Hi).
  - intros [H5e Hzero]. apply (Hgo (Returns false)).
    unfold scanBody. rewrite H5e.
    destruct (bool_decide (0x5e ∈ opcodes handlers)); [|reflexivity].
    cbn. rewrite Hzero. reflexivity.
  - intros t Ht.
    destruct (scanned_sets _ _ _ _ Hfinal Hp) as [_ Htargets].
    apply scanLoop_Next in Hfinal as (_ & _ & Hnew).
    destruct (Hnew t (Htargets t Ht)) as [Hin|]; [|assumption].
    cbn in Hin. set_solver.
Qed.

Lemma checkOpcodes_iff :
  checkOpcodes handlers code = Returns true <->
  (forall p, scanned handlers code p -> wellFormed handlers code p) /\
  (forall p t, scanned handlers code p -> jumpTarget code p t ->
     ~ immediateSet handlers code t) /\
  (exists b, byteAt code (len code - 1) = Some b /\ b ∈ terminatingOpcodes).
Proof.
  split.
  - intros H. apply checkOpcodes_true in H as (final & Hfinal & Hterm & Hjumps).
    destruct (scanAll_exact _ _ _ Hfinal) as [Himm _].
    split_and!.
    + intros p Hp. apply (pass_wellFormed final p Hfinal Hp).
    + intros p t Hp Ht Hop.
      destruct (scanned_sets _ _ _ _ Hfinal Hp) as [_ Htargets].
      destruct (pass_targets _ t Hfinal Hjumps (Htargets t Ht)) as [_ Hnot].
      apply Hnot, Himm, Hop.
    + unfold isTerminating in Hterm.
      destruct (byteAt code (len code - 1)) as [b|]; [|discriminate].
      exists b. split; [reflexivity|]. apply bool_decide_eq_true in Hterm. exact Hterm.
  - intros (Hwf & Hjumps & (b & Hlast & Hb)).
    destruct (scanAll_cases handlers code) as [Hhalt | [final Hfinal]].
    + exfalso.
      destruct (scanLoop_Halt_inv _ _ _ (reachable_start _ _) Hhalt ltac:(discriminate))
        as (s' & c' & Hr & Hlt & Hbody).
      destruct (scanBody_progress s') as [f Hf].
      * apply (reachable_pos _ _ _ Hr).
      * apply Hwf. exists s'. auto.
      * congruence.
    + destruct (scanAll_exact _ _ _ Hfinal) as [Himm Hdest].
      unfold checkOpcodes. rewrite Hfinal. cbn.
      unfold isTerminating. rewrite Hlast.
      rewrite bool_decide_eq_true_2 by exact Hb. cbn.
      assert (noJumpIntoImmediate final = true) as ->; [|reflexivity].
      unfold noJumpIntoImmediate. apply Is_true_true, forallb_True, Forall_forall.
      intros t Ht. apply elem_of_elements in Ht.
      apply Is_true_true, negb_true_iff, bool_decide_eq_false.
      intros Hin. apply Hdest in Ht as (q & Hq & Hqt).
      exact (Hjumps q t Hq Hqt (proj1 (Himm t) Hin)).
Qed.

End PassAccepts.

(** ** A larger opcode table *)

(** One statement of [validateCode] that does not depend on the table,
    in a hypothesis on one table and a goal on another. *)
Ltac same_step H :=
  lazymatch type of H with
  | run (?m ≫= _) = _ =>
      destruct m as [?|?];
      [rewrite run_bind_Next in H; rewrite run_bind_Next; cbv beta zeta in H |- *
      |rewrite run_bind_Halt in H; rewrite run_bind_Halt; exact H]
  end.

Section LargerTable.

Variables handlers handlers' : gset Z.
Variable code : Buffer.

Hypothesis larger : handlers ⊆ handlers'.

Lemma opcodes_mono : opcodes handlers ⊆ opcodes handlers'.
Proof. unfold opcodes. set_solver. Qed.

Lemma scanBody_mono s f :
  scanBody handlers code s = Next f -> scanBody handlers' code s = Next f.
Proof.
  unfold scanBody.
  destruct (byteAt code (pos s)) as [op|]; [|discriminate].
  destruct (bool_decide_reflect (op ∈ opcodes handlers)) as [Hin|]; [|discriminate].
  rewrite (bool_decide_eq_true_2 (op ∈ opcodes handlers')) by (apply opcodes_mono, Hin).
  auto.
Qed.

Lemma scanLoop_mono fuel : forall s final,
  scanLoop handlers code fuel s = Next final ->
  scanLoop handlers' code fuel s = Next final.
Proof.
  induction fuel as [|fuel IH]; intros s final; cbn [scanLoop];
    destruct (pos s <? len code); try discriminate; auto.
  destruct (scanBody handlers code s) as [f|c] eqn:Hbody; [|discriminate].
  rewrite (scanBody_mono _ _ Hbody). cbn. destruct f; auto.
Qed.

Lemma checkOpcodes_mono :
  checkOpcodes handlers code = Returns true ->
  checkOpcodes handlers' code = Returns true.
Proof.
  intros H. apply checkOpcodes_true in H as (final & Hfinal & Hterm & Hjumps).
  unfold checkOpcodes, scanAll in *.
  rewrite (scanLoop_mono _ _ _ Hfinal). cbn. rewrite Hterm. cbn.
  rewrite Hjumps. reflexivity.
Qed.

Lemma validateCode_mono :
  validateCode handlers code = Returns true ->
  validateCode handlers' code = Returns true.
Proof.
  unfold validateCode. intros H.
  do 20 same_step H.
  destruct (checkOpcodes handlers code) as [[|]| |] eqn:Hcheck.
  - rewrite (checkOpcodes_mono Hcheck). reflexivity.
  - discriminate H.
  - discriminate H.
  - discriminate H.
Qed.

End LargerTable.

(** ** The sample inputs, run *)

Example zeroCodeSections_rejected handlers :
  validateCode handlers zeroCodeSections = Returns false.
Proof. reflexivity. Qed.

Example version0Container_accepted :
  validateCode allDefined version0Container = Returns true.
Proof. vm_compute. reflexivity. Qed.

Example version0Container_needs_magic_opcode :
  validateCode noMagicOpcode version0Container = Returns false.
Proof. vm_compute. reflexivity. Qed.

Example jumpContainer_pass :
  scanAll allDefined jumpContainer = Next (Scan 24 {[ 22 ]} {[ 20; 21 ]}).
Proof. vm_compute. reflexivity. Qed.

Example pushAtEnd_rejected :
  validateCode allDefined pushAtEnd = Returns false.
Proof. vm_compute. reflexivity. Qed.

(** * Properties of the validator *)

(** C1.  The minimum EOF1 container of the specification,
    EF 00 01 01 00 04 02 00 01 00 01 03 00 00 00, type entry 00 00 00 00,
    code byte 00, is to be accepted.  The code returns false on it, whatever
    the opcode table: its version byte 01 fails the test [version !== 0]. *)
Theorem minimal_container_rejected (handlers : gset Z) :
  validateCode handlers minimalEOF1 = Returns false.
Proof. reflexivity. Qed.

(** C2.  In an accepted container with the magic, the declared sizes are to
    add up to the bytes after the header.  [version0Container] is accepted
    with every byte defined, and declares 4 + 1 + 0 bytes where 6 follow its
    15-byte header. *)
Theorem accepted_length_mismatch :
  validateCode allDefined version0Container = Returns true /\
  isEOFCode version0Container = true /\
  typeSectionSizeOf version0Container = Next 4 /\
  numCodeSectionsOf version0Container = Next 1 /\
  codeSizeOf version0Container 1 = Next 1 /\
  dataSectionSizeOf version0Container 1 = Next 0 /\
  4 + 1 + 0 <> len version0Container - (13 + 2 * 1).
Proof. split_and!; [vm_compute; reflexivity.. | discriminate]. Qed.

(** C3.  A container with the magic whose third byte is not 0x01 is to be
    rejected.  [version0Container] has the third byte 0x00 and is accepted
    with every byte defined; and whatever the table, [headerOnly] has the
    third byte 0x00 and does not return false. *)
Theorem version_zero_not_rejected :
  isEOFCode version0Container = true /\
  byteAt version0Container 2 = Some 0 /\
  validateCode allDefined version0Container = Returns true /\
  (forall handlers, isEOFCode headerOnly = true /\
     byteAt headerOnly 2 = Some 0 /\
     validateCode handlers headerOnly <> Returns false).
Proof.
  split_and!; [vm_compute; reflexivity.. |].
  intros handlers. split_and!; [reflexivity | reflexivity | discriminate].
Qed.

(** C4.  [validateCode] is to end in a boolean on every input.  On
    [headerOnly], a 15-byte header that announces one type entry, the read
    of the entry at offset 15 throws a RangeError, whatever the table. *)
Theorem truncated_type_section_throws (handlers : gset Z) :
  validateCode handlers headerOnly = Throws RangeError.
Proof. reflexivity. Qed.

(** C5.  In an accepted container with the magic, every target of an RJUMP,
    RJUMPI or RJUMPV that the opcode pass reads lies inside the container
    and is not an operand byte of an instruction the pass reads; in the sets
    of [checkOpcodes] at the end of the pass, it is in [rjumpdests] and not
    in [immediates]. *)
Theorem jump_targets_valid (handlers : gset Z) (code : Buffer) (p t : Z) :
  validateCode handlers code = Returns true ->
  isEOFCode code = true ->
  scanned handlers code p ->
  jumpTarget code p t ->
  0 <= t < len code /\
  ~ immediateSet handlers code t /\
  exists final, scanAll handlers code = Next final /\
    t ∈ rjumpdests final /\ t ∉ immediates final.
Proof.
  intros Hacc HEOF Hp Ht.
  destruct (accepted_pass _ _ Hacc HEOF) as (final & Hfinal & _).
  destruct (scanned_sets _ _ _ _ Hfinal Hp) as [_ Htargets].
  destruct (accepted_targets _ _ Hacc HEOF _ _ Hfinal (Htargets t Ht)) as [Hrange Hnot].
  split_and!; [lia | lia | | exists final; auto].
  intros (q & Hq & Hop). apply Hnot.
  destruct (scanned_sets _ _ _ _ Hfinal Hq) as [Hoperands _]. auto.
Qed.

Lemma jump_targets_valid_witness :
  0 <= 22 < len jumpContainer /\
  ~ immediateSet allDefined jumpContainer 22 /\
  exists final, scanAll allDefined jumpContainer = Next final /\
    22 ∈ rjumpdests final /\ 22 ∉ immediates final.
Proof.
  apply (jump_targets_valid allDefined jumpContainer 19 22).
  - vm_compute. reflexivity.
  - vm_compute. reflexivity.
  - exists (Scan 19 ∅ ∅). split_and!; [|reflexivity|reflexivity].
    apply (scanTrace_lookup allDefined jumpContainer 19%nat).
    vm_compute. reflexivity.
  - apply (target_rjump jumpContainer 19 22 0x5c 0);
      [reflexivity | left; reflexivity | reflexivity | reflexivity].
Defined.

(** C6.  In an accepted container with the magic, the last byte is one of
    0x00, 0xF3, 0xFD, 0xFE, 0xFF, and no byte before the last that the
    opcode pass reads as an opcode is 0xFF. *)
Theorem terminator_and_selfdestruct (handlers : gset Z) (code : Buffer) :
  validateCode handlers code = Returns true ->
  isEOFCode code = true ->
  (exists b, byteAt code (len code - 1) = Some b /\ b ∈ terminatingOpcodes) /\
  (forall p, scanned handlers code p -> p < len code - 1 ->
     byteAt code p <> Some 0xff).
Proof.
  intros Hacc HEOF.
  destruct (accepted_pass _ _ Hacc HEOF) as (final & Hfinal & Hterm & _).
  split.
  - unfold isTerminating in Hterm.
    destruct (byteAt code (len code - 1)) as [b|]; [|discriminate].
    exists b. split; [reflexivity|]. apply bool_decide_eq_true in Hterm. exact Hterm.
  - intros p Hp _ Hbyte.
    assert (checkOpcodes handlers code = Returns false) as Hrej.
    { apply (scanned_reject _ _ p Hp). intros s Hs.
      apply (scanBody_undefined _ _ s 0xff); [congruence|].
      apply selfdestruct_not_allowed. }
    rewrite (accepted_check _ _ Hacc HEOF) in Hrej. discriminate.
Qed.

Lemma terminator_and_selfdestruct_witness :
  (exists b, byteAt version0Container (len version0Container - 1) = Some b /\
             b ∈ terminatingOpcodes) /\
  (forall p, scanned allDefined version0Container p ->
     p < len version0Container - 1 -> byteAt version0Container p <> Some 0xff).
Proof.
  apply (terminator_and_selfdestruct allDefined version0Container).
  - vm_compute. reflexivity.
  - vm_compute. reflexivity.
Defined.

(** C7.  On an input that does not begin with the magic EF 00, shorter
    inputs included, [validateCode] returns true. *)
Theorem legacy_passthrough (handlers : gset Z) (code : Buffer) :
  ~ (byteAt code 0 = Some 0xef /\ byteAt code 1 = Some 0x00) ->
  isEOFCode code = false /\ validateCode handlers code = Returns true.
Proof.
  intros Hlegacy.
  assert (isEOFCode code = false) as H.
  { destruct (isEOFCode code) eqn:HEOF; [|reflexivity].
    apply isEOFCode_spec in HEOF. contradiction. }
  split; [exact H|]. unfold validateCode. rewrite H. reflexivity.
Qed.

Lemma legacy_passthrough_witness :
  isEOFCode legacyCode = false /\ validateCode allDefined legacyCode = Returns true.
Proof.
  apply (legacy_passthrough allDefined legacyCode).
  intros [H _]. vm_compute in H. discriminate H.
Defined.

(** C8 as stated fails: [legacyZero] does not begin with the magic, and
    [getEOFVersion] gives 0 on it, which is its third byte. *)
Lemma version_probe_iff_fails :
  ~ (isEOFCode legacyZero = true <-> getEOFVersion legacyZero = byteAt legacyZero 2).
Proof.
  intros [_ H]. specialize (H eq_refl). discriminate.
Qed.

(** C8, amended.  On an input with the magic [getEOFVersion] gives
    [code[2]], on any other input it gives 0; so it gives [code[2]] exactly
    when the input has the magic or its third byte is 0. *)
Theorem version_probe (code : Buffer) :
  (isEOFCode code = true -> getEOFVersion code = byteAt code 2) /\
  (isEOFCode code = false -> getEOFVersion code = Some 0) /\
  (getEOFVersion code = byteAt code 2 <->
   isEOFCode code = true \/ byteAt code 2 = Some 0).
Proof.
  unfold getEOFVersion, _getEOFVersion.
  destruct (isEOFCode code); cbn; split_and!; try tauto; try discriminate.
  split; [auto | intros [H|H]; [discriminate | auto]].
Qed.

Lemma version_probe_witness :
  getEOFVersion version0Container = byteAt version0Container 2 /\
  getEOFVersion legacyCode = Some 0.
Proof.
  split.
  - destruct (version_probe version0Container) as (H & _ & _).
    apply H. reflexivity.
  - destruct (version_probe legacyCode) as (_ & H & _).
    apply H. reflexivity.
Defined.

(** C9.  The opcode pass starts at offset 0 of the container.  A container
    with the magic is accepted only if 0xEF is in the allowed set (the
    table, plus 0xFE, minus 0x58, 0xFF and 0xF2); with a table that does not
    define 0xEF, no container with the magic is accepted: [validateCode]
    returns false, or throws where the type section is cut short. *)
Theorem magic_byte_must_be_allowed (handlers : gset Z) (code : Buffer) :
  isEOFCode code = true ->
  (validateCode handlers code = Returns true -> 0xef ∈ opcodes handlers) /\
  (0xef ∉ handlers ->
   validateCode handlers code = Returns false \/
   validateCode handlers code = Throws RangeError).
Proof.
  intros HEOF.
  destruct (isEOFCode_bytes _ HEOF) as (Hmagic & _ & Hlen).
  assert (scanned handlers code 0) as Hstart.
  { exists scanStart. split_and!; [apply reachable_start | reflexivity | lia]. }
  assert (0xef ∉ opcodes handlers -> checkOpcodes handlers code = Returns false)
    as Hrej.
  { intros Hout. apply (scanned_reject _ _ 0 Hstart). intros s Hs.
    apply (scanBody_undefined _ _ s 0xef); [congruence | exact Hout]. }
  split.
  - intros Hacc. destruct (decide (0xef ∈ opcodes handlers)) as [|Hout]; [assumption|].
    destruct (validateCode_pass_failed _ _ HEOF (Hrej Hout)); congruence.
  - intros Hout. apply validateCode_pass_failed; [exact HEOF|].
    apply Hrej. unfold opcodes. set_solver.
Qed.

Lemma magic_byte_must_be_allowed_witness :
  0xef ∈ opcodes allDefined /\
  (validateCode noMagicOpcode version0Container = Returns false \/
   validateCode noMagicOpcode version0Container = Throws RangeError).
Proof.
  split.
  - destruct (magic_byte_must_be_allowed allDefined version0Container) as [H _].
    + reflexivity.
    + apply H. vm_compute. reflexivity.
  - destruct (magic_byte_must_be_allowed noMagicOpcode version0Container) as [_ H].
    + reflexivity.
    + apply H. unfold noMagicOpcode. set_solver.
Defined.

(** C10.  When the opcode pass reads an instruction whose operand (a PUSH
    operand, the offset of RJUMP or RJUMPI, the table size and table of
    RJUMPV) ends in the last byte of the container, the pass returns false
    and the container is not accepted: one byte after every operand is
    required. *)
Theorem operand_needs_following_byte (handlers : gset Z) (code : Buffer) (p : Z) :
  isEOFCode code = true ->
  scanned handlers code p ->
  endsAtLastByte code p ->
  checkOpcodes handlers code = Returns false /\
  (validateCode handlers code = Returns false \/
   validateCode handlers code = Throws RangeError).
Proof.
  intros HEOF Hp Hend.
  assert (checkOpcodes handlers code = Returns false) as Hrej.
  { apply (scanned_reject _ _ p Hp). intros s Hs.
    apply scanBody_endsAtLastByte. rewrite Hs. exact Hend. }
  split; [exact Hrej|]. apply validateCode_pass_failed; assumption.
Qed.

Lemma operand_needs_following_byte_witness :
  checkOpcodes allDefined pushAtEnd = Returns false /\
  (validateCode allDefined pushAtEnd = Returns false \/
   validateCode allDefined pushAtEnd = Throws RangeError).
Proof.
  apply (operand_needs_following_byte allDefined pushAtEnd 19).
  - reflexivity.
  - exists (Scan 19 ∅ ∅). split_and!; [|reflexivity|reflexivity].
    apply (scanTrace_lookup allDefined pushAtEnd 19%nat).
    vm_compute. reflexivity.
  - apply (ends_push pushAtEnd 19 0x60); [reflexivity | lia | reflexivity].
Defined.

(** * Further properties of the validator *)

(** X1.  [checkOpcodes] returns a boolean on every buffer and every table:
    each [readInt16BE] of the pass is inside the buffer, so it never throws,
    and the loop ends within [code.length] iterations. *)
Theorem checkOpcodes_total (handlers : gset Z) (code : Buffer) :
  exists b, checkOpcodes handlers code = Returns b.
Proof. apply checkOpcodes_returns. Qed.

(** X2.  [validateCode] throws only on a type section that is cut short:
    the header is complete, announces at least one code section, and the
    container ends before the last announced type entry. *)
Theorem throws_only_on_truncated_types (handlers : gset Z) (code : Buffer) :
  validateCode handlers code = Throws RangeError ->
  exists numCodeSections,
    numCodeSectionsOf code = Next numCodeSections /\
    1 <= numCodeSections /\
    bodyStartPosOf numCodeSections <= len code
      < bodyStartPosOf numCodeSections + 4 * numCodeSections.
Proof. apply validateCode_throws. Qed.

Lemma throws_only_on_truncated_types_witness :
  exists numCodeSections,
    numCodeSectionsOf headerOnly = Next numCodeSections /\
    1 <= numCodeSections /\
    bodyStartPosOf numCodeSections <= len headerOnly
      < bodyStartPosOf numCodeSections + 4 * numCodeSections.
Proof.
  apply (throws_only_on_truncated_types allDefined headerOnly). reflexivity.
Defined.

(** X3.  The header of an accepted container with the magic: the kind
    bytes 01, 02, 03 and the terminator 00 are at offsets 3, 6, 9 + 2n and
    12 + 2n, where n, the number of code sections, is between 1 and 1024;
    the type section size is 4n, all n type entries are read, and the
    container has at least 14 + 6n bytes. *)
Theorem accepted_header_shape (handlers : gset Z) (code : Buffer) :
  validateCode handlers code = Returns true ->
  isEOFCode code = true ->
  exists numCodeSections,
    numCodeSectionsOf code = Next numCodeSections /\
    1 <= numCodeSections <= 1024 /\
    typeSectionSizeOf code = Next (4 * numCodeSections) /\
    byteAt code 3 = Some KIND_TYPE /\
    byteAt code 6 = Some KIND_CODE /\
    byteAt code (9 + 2 * numCodeSections) = Some KIND_DATA /\
    byteAt code (12 + 2 * numCodeSections) = Some TERMINATOR /\
    (exists p, typeSections code (Z.to_nat numCodeSections)
                 (13 + 2 * numCodeSections) = Next p) /\
    14 + 6 * numCodeSections <= len code.
Proof. apply accepted_header. Qed.

Lemma accepted_header_shape_witness :
  exists numCodeSections,
    numCodeSectionsOf version0Container = Next numCodeSections /\
    1 <= numCodeSections <= 1024 /\
    typeSectionSizeOf version0Container = Next (4 * numCodeSections) /\
    byteAt version0Container 3 = Some KIND_TYPE /\
    byteAt version0Container 6 = Some KIND_CODE /\
    byteAt version0Container (9 + 2 * numCodeSections) = Some KIND_DATA /\
    byteAt version0Container (12 + 2 * numCodeSections) = Some TERMINATOR /\
    (exists p, typeSections version0Container (Z.to_nat numCodeSections)
                 (13 + 2 * numCodeSections) = Next p) /\
    14 + 6 * numCodeSections <= len version0Container.
Proof.
  apply (accepted_header_shape allDefined version0Container).
  - vm_compute. reflexivity.
  - reflexivity.
Defined.

(** X4.  In an accepted container with the magic, every type entry has
    inputs and outputs of at most 0x7F and a maximum stack height of at most
    1023; entry k is at offset 13 + 2n + 4k. *)
Theorem accepted_type_entries (handlers : gset Z) (code : Buffer)
    (numCodeSections k : Z) :
  validateCode handlers code = Returns true ->
  isEOFCode code = true ->
  numCodeSectionsOf code = Next numCodeSections ->
  0 <= k < numCodeSections ->
  exists inputs outputs maxStackHeight,
    byteAt code (13 + 2 * numCodeSections + 4 * k) = Some inputs /\
    inputs <= 0x7f /\
    byteAt code (13 + 2 * numCodeSections + 4 * k + 1) = Some outputs /\
    outputs <= 0x7f /\
    readUint16BE code (13 + 2 * numCodeSections + 4 * k + 2) = Next maxStackHeight /\
    maxStackHeight <= 1023.
Proof.
  intros Hacc HEOF Hn Hk.
  destruct (accepted_header _ _ Hacc HEOF) as (n & Hn' & _ & _ & _ & _ & _ & _ & [p Hp] & _).
  rewrite Hn in Hn'. injection Hn' as <-.
  apply (typeSections_entries _ _ _ _ Hp). lia.
Qed.

Lemma accepted_type_entries_witness :
  exists inputs outputs maxStackHeight,
    byteAt version0Container (13 + 2 * 1 + 4 * 0) = Some inputs /\
    inputs <= 0x7f /\
    byteAt version0Container (13 + 2 * 1 + 4 * 0 + 1) = Some outputs /\
    outputs <= 0x7f /\
    readUint16BE version0Container (13 + 2 * 1 + 4 * 0 + 2) = Next maxStackHeight /\
    maxStackHeight <= 1023.
Proof.
  apply (accepted_type_entries allDefined version0Container 1 0).
  - vm_compute. reflexivity.
  - reflexivity.
  - reflexivity.
  - lia.
Defined.

(** X5.  The last byte of an accepted container with the magic is read as
    an opcode: it is in the allowed set and is 0x00, 0xF3, 0xFD or 0xFE.  A
    container that ends in 0xFF is never accepted. *)
Theorem accepted_ends_in_allowed_terminator (handlers : gset Z) (code : Buffer) :
  validateCode handlers code = Returns true ->
  isEOFCode code = true ->
  exists b, byteAt code (len code - 1) = Some b /\
    b ∈ opcodes handlers /\ (b = 0x00 \/ b = 0xf3 \/ b = 0xfd \/ b = 0xfe).
Proof. apply accepted_last_byte. Qed.

Lemma accepted_ends_in_allowed_terminator_witness :
  exists b, byteAt version0Container (len version0Container - 1) = Some b /\
    b ∈ opcodes allDefined /\ (b = 0x00 \/ b = 0xf3 \/ b = 0xfd \/ b = 0xfe).
Proof.
  apply (accepted_ends_in_allowed_terminator allDefined version0Container).
  - vm_compute. reflexivity.
  - reflexivity.
Defined.

(** X6.  In an accepted container with the magic, every byte the pass reads
    as an opcode has a handler or is 0xFE, and is none of 0x58, 0xFF and
    0xF2. *)
Theorem accepted_opcodes_allowed (handlers : gset Z) (code : Buffer) (p : Z) :
  validateCode handlers code = Returns true ->
  isEOFCode code = true ->
  scanned handlers code p ->
  exists op, byteAt code p = Some op /\
    (op ∈ handlers \/ op = 0xfe) /\ op <> 0x58 /\ op <> 0xff /\ op <> 0xf2.
Proof.
  intros Hacc HEOF Hp.
  pose proof Hp as (s & Hr & Hpos & Hlt).
  pose proof (reachable_pos _ _ _ Hr) as Hnn.
  destruct (byteAt_inside code p ltac:(lia)) as [op Hop].
  exists op. split; [exact Hop|].
  assert (op ∈ opcodes handlers) as Hin.
  { destruct (decide (op ∈ opcodes handlers)) as [|Hout]; [assumption|].
    assert (checkOpcodes handlers code = Returns false) as Hrej.
    { apply (scanned_reject _ _ p Hp). intros s0 Hs0.
      apply (scanBody_undefined _ _ s0 op); [congruence | exact Hout]. }
    rewrite (accepted_check _ _ Hacc HEOF) in Hrej. discriminate. }
  unfold opcodes in Hin. set_solver.
Qed.

Lemma accepted_opcodes_allowed_witness :
  exists op, byteAt version0Container 19 = Some op /\
    (op ∈ allDefined \/ op = 0xfe) /\ op <> 0x58 /\ op <> 0xff /\ op <> 0xf2.
Proof.
  apply (accepted_opcodes_allowed allDefined version0Container 19).
  - vm_compute. reflexivity.
  - reflexivity.
  - exists (Scan 19 ∅ ∅). split_and!; [|reflexivity|reflexivity].
    apply (scanTrace_lookup allDefined version0Container 19%nat).
    vm_compute. reflexivity.
Defined.

(** X7.  In an accepted container with the magic, every byte from the
    first to the last, header, type section and data section included, is
    either read as an opcode or is an operand byte of an instruction read,
    and never both. *)
Theorem accepted_bytes_partition (handlers : gset Z) (code : Buffer) (i : Z) :
  validateCode handlers code = Returns true ->
  isEOFCode code = true ->
  0 <= i < len code ->
  (scanned handlers code i /\ ~ immediateSet handlers code i) \/
  (immediateSet handlers code i /\ ~ scanned handlers code i).
Proof.
  intros Hacc HEOF Hi.
  destruct (accepted_pass _ _ Hacc HEOF) as (final & Hfinal & _).
  destruct (scanAll_cover _ _ _ _ Hfinal Hi) as [Hs|Him].
  - left. split; [exact Hs | apply scanned_not_operand; exact Hs].
  - right. split; [exact Him|]. intros Hs.
    exact (scanned_not_operand _ _ _ Hs Him).
Qed.

Lemma accepted_bytes_partition_witness :
  (scanned allDefined jumpContainer 20 /\ ~ immediateSet allDefined jumpContainer 20) \/
  (immediateSet allDefined jumpContainer 20 /\ ~ scanned allDefined jumpContainer 20).
Proof.
  apply (accepted_bytes_partition allDefined jumpContainer 20).
  - vm_compute. reflexivity.
  - reflexivity.
  - split; [lia | reflexivity].
Defined.

(** X8.  In an accepted container with the magic, every target of a
    relative jump the pass reads is itself a position the pass reads as an
    opcode: jumps land on instruction starts. *)
Theorem jump_targets_are_opcodes (handlers : gset Z) (code : Buffer) (p t : Z) :
  validateCode handlers code = Returns true ->
  isEOFCode code = true ->
  scanned handlers code p ->
  jumpTarget code p t ->
  scanned handlers code t.
Proof.
  intros Hacc HEOF Hp Ht.
  destruct (accepted_pass _ _ Hacc HEOF) as (final & Hfinal & _).
  destruct (scanned_sets _ _ _ _ Hfinal Hp) as [_ Htargets].
  destruct (accepted_targets _ _ Hacc HEOF _ _ Hfinal (Htargets t Ht)) as [Hrange Hnot].
  destruct (scanAll_cover _ _ _ t Hfinal ltac:(lia)) as [Hs|(q & Hq & Hop)];
    [exact Hs|].
  destruct (scanned_sets _ _ _ _ Hfinal Hq) as [Hoperands _].
  destruct (Hnot (Hoperands t Hop)).
Qed.

Lemma jump_targets_are_opcodes_witness : scanned allDefined jumpContainer 22.
Proof.
  apply (jump_targets_are_opcodes allDefined jumpContainer 19 22).
  - vm_compute. reflexivity.
  - reflexivity.
  - exists (Scan 19 ∅ ∅). split_and!; [|reflexivity|reflexivity].
    apply (scanTrace_lookup allDefined jumpContainer 19%nat).
    vm_compute. reflexivity.
  - apply (target_rjump jumpContainer 19 22 0x5c 0);
      [reflexivity | left; reflexivity | reflexivity | reflexivity].
Defined.

(** X9.  In an accepted container with the magic, every operand byte of an
    instruction the pass reads lies after its opcode and before the last
    byte of the container. *)
Theorem accepted_operands_inside (handlers : gset Z) (code : Buffer) (p i : Z) :
  validateCode handlers code = Returns true ->
  isEOFCode code = true ->
  scanned handlers code p ->
  operand code p i ->
  p < i <= len code - 2.
Proof.
  intros Hacc HEOF (s & Hr & <- & Hlt) Hop.
  destruct (accepted_pass _ _ Hacc HEOF) as (final & Hfinal & _).
  destruct (reachable_scanLoop _ _ _ Hr) as [fuel Hloop]. rewrite Hfinal in Hloop.
  destruct fuel as [|fuel]; cbn [scanLoop] in Hloop;
    apply Z.ltb_lt in Hlt; rewrite Hlt in Hloop; [discriminate|].
  destruct (scanBody handlers code s) as [[s1|s1]|c] eqn:Hbody; cbn in Hloop;
    [| |discriminate].
  - pose proof (scanBody_Continue _ _ _ _ Hbody) as (_ & Hp & Hlast & _).
    apply (scanBody_skips _ _ _ _ i Hbody) in Hop. lia.
  - apply scanBody_Break_bare in Hbody as [Hno _]. destruct (Hno i Hop).
Qed.

Lemma accepted_operands_inside_witness : 19 < 20 <= len jumpContainer - 2.
Proof.
  apply (accepted_operands_inside allDefined jumpContainer 19 20).
  - vm_compute. reflexivity.
  - reflexivity.
  - exists (Scan 19 ∅ ∅). split_and!; [|reflexivity|reflexivity].
    apply (scanTrace_lookup allDefined jumpContainer 19%nat).
    vm_compute. reflexivity.
  - apply (operand_rjump jumpContainer 19 20 0x5c);
      [reflexivity | left; reflexivity | lia].
Defined.

(** X10.  Acceptance is kept when the opcode table grows: a container
    accepted with one table is accepted with every table that defines at
    least the same bytes. *)
Theorem larger_table_accepts (handlers handlers' : gset Z) (code : Buffer) :
  handlers ⊆ handlers' ->
  validateCode handlers code = Returns true ->
  validateCode handlers' code = Returns true.
Proof. apply validateCode_mono. Qed.

Lemma larger_table_accepts_witness :
  validateCode allDefined version0Container = Returns true.
Proof.
  apply (larger_table_accepts fewOpcodes allDefined version0Container).
  - apply (bool_decide_unpack _). vm_compute. exact I.
  - vm_compute. reflexivity.
Defined.

(** X11.  When the pass reaches the end of its loop, [immediates] holds
    exactly the operand bytes of the instructions read, and [rjumpdests]
    exactly the targets of the relative jumps read. *)
Theorem final_sets_exact (handlers : gset Z) (code : Buffer) (final : scan) :
  scanAll handlers code = Next final ->
  (forall i, i ∈ immediates final <-> immediateSet handlers code i) /\
  (forall t, t ∈ rjumpdests final <->
     exists q, scanned handlers code q /\ jumpTarget code q t).
Proof. apply scanAll_exact. Qed.

Lemma final_sets_exact_witness :
  (forall i, i ∈ immediates (Scan 24 {[ 22 ]} {[ 20; 21 ]}) <->
     immediateSet allDefined jumpContainer i) /\
  (forall t, t ∈ rjumpdests (Scan 24 {[ 22 ]} {[ 20; 21 ]}) <->
     exists q, scanned allDefined jumpContainer q /\ jumpTarget jumpContainer q t).
Proof.
  apply (final_sets_exact allDefined jumpContainer (Scan 24 {[ 22 ]} {[ 20; 21 ]})).
  vm_compute. reflexivity.
Defined.

(** X12.  [getEOFVersion] gives [undefined] on the two-byte buffer EF 00
    and on no other input; any number it gives is between 0 and 255. *)
Theorem getEOFVersion_undefined (code : Buffer) :
  (getEOFVersion code = None <-> code = MAGIC) /\
  (forall v, getEOFVersion code = Some v -> 0 <= v <= 255).
Proof.
  unfold getEOFVersion, _getEOFVersion. split.
  - split.
    + destruct (isEOFCode code) eqn:HEOF; cbn [negb]; [|discriminate].
      intros Hnone. unfold isEOFCode in HEOF. apply bool_decide_eq_true in HEOF.
      destruct code as [|a [|b [|c rest]]]; try discriminate HEOF.
      * exact HEOF.
      * discriminate Hnone.
    + intros ->. reflexivity.
  - intros v. destruct (isEOFCode code); cbn [negb].
    + intros Hv. apply byteAt_Some in Hv as [_ Hv]. exact Hv.
    + intros [= <-]. lia.
Qed.

(** X13.  When the pass reads an RJUMPV whose table size byte is 0, it
    returns false, and a container with the magic is not accepted. *)
Theorem empty_jump_table_rejected (handlers : gset Z) (code : Buffer) (p : Z) :
  isEOFCode code = true ->
  scanned handlers code p ->
  byteAt code p = Some 0x5e ->
  byteAt code (p + 1) = Some 0 ->
  checkOpcodes handlers code = Returns false /\
  (validateCode handlers code = Returns false \/
   validateCode handlers code = Throws RangeError).
Proof.
  intros HEOF Hp Hop Hsize.
  assert (checkOpcodes handlers code = Returns false) as Hrej.
  { apply (scanned_reject _ _ p Hp). intros s Hs. subst p.
    unfold scanBody. rewrite Hop.
    destruct (bool_decide (0x5e ∈ opcodes handlers)); [|reflexivity].
    cbn. rewrite Hsize. reflexivity. }
  split; [exact Hrej|]. apply validateCode_pass_failed; assumption.
Qed.

Lemma empty_jump_table_rejected_witness :
  checkOpcodes allDefined emptyTable = Returns false /\
  (validateCode allDefined emptyTable = Returns false \/
   validateCode allDefined emptyTable = Throws RangeError).
Proof.
  apply (empty_jump_table_rejected allDefined emptyTable 19).
  - reflexivity.
  - exists (Scan 19 ∅ ∅). split_and!; [|reflexivity|reflexivity].
    apply (scanTrace_lookup allDefined emptyTable 19%nat).
    vm_compute. reflexivity.
  - reflexivity.
  - reflexivity.
Defined.

(** X14.  [checkOpcodes] returns true exactly when every instruction the
    pass reads is well formed (allowed opcode, operand ending before the
    last byte, no empty jump table, jump targets inside the container), no
    jump target is an operand byte of an instruction read, and the last byte
    of the container is 0x00, 0xF3, 0xFD, 0xFE or 0xFF. *)
Theorem checkOpcodes_accepts_exactly (handlers : gset Z) (code : Buffer) :
  checkOpcodes handlers code = Returns true <->
  (forall p, scanned handlers code p -> wellFormed handlers code p) /\
  (forall p t, scanned handlers code p -> jumpTarget code p t ->
     ~ immediateSet handlers code t) /\
  (exists b, byteAt code (len code - 1) = Some b /\ b ∈ terminatingOpcodes).
Proof. apply checkOpcodes_iff. Qed.

Lemma checkOpcodes_accepts_exactly_witness :
  (forall p, scanned allDefined jumpContainer p -> wellFormed allDefined jumpContainer p) /\
  (forall p t, scanned allDefined jumpContainer p -> jumpTarget jumpContainer p t ->
     ~ immediateSet allDefined jumpContainer t) /\
  (exists b, byteAt jumpContainer (len jumpContainer - 1) = Some b /\
             b ∈ terminatingOpcodes).
Proof.
  apply (proj1 (checkOpcodes_accepts_exactly allDefined jumpContainer)).
  vm_compute. reflexivity.
Defined.

(** X15.  [validateCode] returns true exactly on the inputs without the
    magic and on the containers with: version byte 0; the kind bytes 01, 02,
    03 and the terminator 00 at offsets 3, 6, 9 + 2n and 12 + 2n for a
    number n of code sections between 1 and 1024; a type section size of 4n;
    n type entries within their bounds; a length of 14 + 6n plus the
    declared code and data sizes; and an opcode pass that returns true. *)
Theorem validateCode_accepts_exactly (handlers : gset Z) (code : Buffer) :
  validateCode handlers code = Returns true <->
  isEOFCode code = false \/
  exists numCodeSections codeSize dataSectionSize,
    byteAt code 2 = Some 0 /\
    byteAt code 3 = Some KIND_TYPE /\
    typeSectionSizeOf code = Next (4 * numCodeSections) /\
    byteAt code 6 = Some KIND_CODE /\
    numCodeSectionsOf code = Next numCodeSections /\
    1 <= numCodeSections <= 1024 /\
    byteAt code (9 + 2 * numCodeSections) = Some KIND_DATA /\
    byteAt code (12 + 2 * numCodeSections) = Some TERMINATOR /\
    (forall k, 0 <= k < numCodeSections ->
       typeEntryOK code (13 + 2 * numCodeSections + 4 * k)) /\
    codeSizeOf code numCodeSections = Next codeSize /\
    dataSectionSizeOf code numCodeSections = Next dataSectionSize /\
    len code = 14 + 6 * numCodeSections + codeSize + dataSectionSize /\
    checkOpcodes handlers code = Returns true.
Proof. apply validateCode_iff. Qed.

Lemma validateCode_accepts_exactly_witness :
  validateCode allDefined version0Container = Returns true.
Proof.
  apply (proj2 (validateCode_accepts_exactly allDefined version0Container)).
  right. exists 1, 1, 0.
  split_and!; try (vm_compute; reflexivity); try lia.
  intros k Hk. assert (k = 0) as -> by lia.
  exists 0, 0, 0. split_and!; try reflexivity; lia.
Defined.
